(** * aws-playwright-ts: the polling helpers, the load partition, the
      attribute encoder and the file waiter, embedded and verified.

    The TypeScript helpers are [async] functions over remote services.  They
    are embedded as computations in a state-and-exception monad over a
    [World]: a millisecond clock ([Date.now()]), the number of external calls
    made so far, and the chronological trace of the external calls and timer
    waits.  The remote services are an oracle, [Remote]: the answer to a call
    may depend on the call's rank, on the time it is issued at and on the
    request.  The clock moves only while the program awaits: a timer takes its
    delay, a remote call its latency.  A call of an [async] function that is
    not awaited where it is made is a promise: the state the call is
    suspended in, resumed by the event loop when what it awaits settles.
    Loops carry fuel; every result that is claimed to be produced is proved
    to be produced with enough fuel. *)

From Stdlib Require Import ZArith List String Ascii Bool Lia.
From Stdlib Require Import Decimal DecimalString DecimalZ QArith.
Import ListNotations.

#[local] Set Warnings "-register-all".

Local Open Scope string_scope.
Local Open Scope list_scope.
Local Open Scope Z_scope.

(* ===================================================================== *)
(** ** The JavaScript runtime: completions, the world, the monad *)
(* ===================================================================== *)

Module Js.

(** What a rejected promise or a [throw] carries. *)
Inductive JsError : Type :=
| SdkRejection (reason : string)   (* [client.send(command)] rejected *)
| Error (message : string).        (* [new Error(message)] of the helpers *)

Inductive Completion (A : Type) : Type :=
| Returned (a : A)
| Thrown (e : JsError)
| OutOfFuel.
Arguments Returned {A} a.
Arguments Thrown {A} e.
Arguments OutOfFuel {A}.

(** [number.toString()] on the integers. *)
Definition toString (n : Z) : string := NilEmpty.string_of_int (Z.to_int n).

(** The inverse reading of a decimal numeral ([Number(s)] on the output of
    [toString]). *)
Definition parseNumber (s : string) : option Z :=
  option_map Z.of_int (NilEmpty.int_of_string s).

End Js.
Export Js.

(** SQS, CloudWatch Logs and the file system, as seen by the helpers. *)
Module Aws.

Record Message : Type := {
  MessageId : string;
  ReceiptHandle : string;
  Body : string
}.

(** [SQSMessage] of lambda-test-helper.ts; [id] and [attributes] are never
    read by the code. *)
Record SQSMessage : Type := {
  body : string;
  messageAttributes : option (list (string * string))
}.

Record FilteredLogEvent : Type := {
  timestamp : Z;
  message : string
}.

Record FilterLogEventsCommand : Type := {
  logGroupName : string;
  filterPattern : string;
  startTime : Z;
  endTime : Z
}.

(** The settlement of an awaited call: how long it took and whether the
    promise rejected ([inl reason]) or resolved ([inr response]). *)
Record Reply (A : Type) : Type := {
  latency : N;
  settled : string + A
}.
Arguments latency {A} r.
Arguments settled {A} r.

(** The remote side.  The first two arguments of every entry are the rank
    of the call among the external calls of the run and the time it is
    issued at.  Optional response fields ([Messages], [events],
    [MessageId]) are options. *)
Record Remote : Type := {
  sqs_receive : nat -> Z -> string -> Z -> Reply (option (list Message));
  sqs_delete : nat -> Z -> string -> string -> Reply unit;
  sqs_send : nat -> Z -> string -> SQSMessage -> Reply (option string);
  logs_filter : nat -> Z -> FilterLogEventsCommand ->
                Reply (option (list FilteredLogEvent));
  fs_exists : nat -> Z -> string -> N * bool
}.

Inductive Event : Type :=
| EvSleep (ms : Z)
| EvReceive (queueUrl : string) (maxMessages : Z)
            (r : string + option (list Message))
| EvDelete (queueUrl receiptHandle : string) (r : string + unit)
| EvSend (queueUrl : string) (m : SQSMessage) (r : string + option string)
| EvFilterLogEvents (c : FilterLogEventsCommand)
                    (r : string + option (list FilteredLogEvent))
| EvExists (path : string) (found : bool).

Record World : Type := {
  clock : Z;                       (* Date.now() *)
  calls : nat;                     (* external calls made so far *)
  trace : list (Z * Event)         (* (issue time, what was done), oldest first *)
}.

End Aws.
Export Aws.

Module Monad.

Definition M (A : Type) : Type := World -> Completion A * World.

Definition ret {A} (a : A) : M A := fun w => (Returned a, w).

Definition throw {A} (e : JsError) : M A := fun w => (Thrown e, w).

Definition out_of_fuel {A} : M A := fun w => (OutOfFuel, w).

Definition bind {A B} (c : M A) (k : A -> M B) : M B :=
  fun w =>
    match c w with
    | (Returned a, w') => k a w'
    | (Thrown e, w') => (Thrown e, w')
    | (OutOfFuel, w') => (OutOfFuel, w')
    end.

Declare Scope js_scope.
Delimit Scope js_scope with js.
Notation "x <- c ;; k" := (bind c (fun x => k))
  (at level 61, c at next level, right associativity) : js_scope.
Notation "c ;;; k" := (bind c (fun _ => k))
  (at level 61, right associativity) : js_scope.

(** [xs || []] on an optional array *)
Definition or_empty {A} (xs : option (list A)) : list A :=
  match xs with
  | Some l => l
  | None => []
  end.

(** [Date.now()] *)
Definition Date_now : M Z := fun w => (Returned (clock w), w).

(** The world after an await that started at [clock w], lasted [d] and is
    recorded as [e]. *)
Definition elapse (d : Z) (e : Event) (w : World) : World :=
  {| clock := clock w + d;
     calls := S (calls w);
     trace := trace w ++ [(clock w, e)] |}.

(** [await new Promise(resolve => setTimeout(resolve, ms))] *)
Definition sleep (ms : Z) : M unit :=
  fun w => (Returned tt,
            {| clock := clock w + ms;
               calls := calls w;
               trace := trace w ++ [(clock w, EvSleep ms)] |}).

(** [await client.send(command)]: the oracle's reply [r] is awaited; a
    rejection is thrown at the await, nothing catches it here. *)
Definition await {A} (ev : string + A -> Event) (r : Reply A) : M A :=
  fun w =>
    let w' := elapse (Z.of_N (latency r)) (ev (settled r)) w in
    match settled r with
    | inl reason => (Thrown (SdkRejection reason), w')
    | inr a => (Returned a, w')
    end.

(** One round of a loop either goes on with the loop-carried variables or
    leaves the function with [return a]. *)
Inductive Step (S A : Type) : Type :=
| Continue (s : S)
| Return (a : A).
Arguments Continue {S A} s.
Arguments Return {S A} a.

(** [while (cond) { body }] with a [return] allowed in the body.
    [Continue s] as a result: the condition failed in state [s] and control
    falls out of the loop. *)
Fixpoint while {S A} (fuel : nat) (cond : S -> M bool)
         (body : S -> M (Step S A)) (s : S) : M (Step S A) :=
  match fuel with
  | O => out_of_fuel
  | Datatypes.S fuel' =>
      bind (cond s) (fun b =>
        if b then
          bind (body s) (fun r =>
            match r with
            | Continue s' => while fuel' cond body s'
            | Return a => ret (Return a)
            end)
        else ret (Continue s))
  end.

(** What one round does to an invariant [I] and a postcondition [Q]. *)
Definition round_ok {S A} (cond : S -> M bool) (body : S -> M (Step S A))
           (I : S -> World -> Prop)
           (Q : Completion (Step S A) -> World -> Prop)
           (s : S) (w : World) : Prop :=
  match cond s w with
  | (Returned true, w1) =>
      match body s w1 with
      | (Returned (Continue s'), w2) => I s' w2
      | (Returned (Return a), w2) => Q (Returned (Return a)) w2
      | (Thrown e, w2) => Q (Thrown e) w2
      | (OutOfFuel, w2) => Q OutOfFuel w2
      end
  | (Returned false, w1) => Q (Returned (Continue s)) w1
  | (Thrown e, w1) => Q (Thrown e) w1
  | (OutOfFuel, w1) => Q OutOfFuel w1
  end.

(** [for (const x of xs) { await f(x) }] *)
Fixpoint for_of {A} (xs : list A) (f : A -> M unit) : M unit :=
  match xs with
  | [] => ret tt
  | x :: rest => bind (f x) (fun _ => for_of rest f)
  end.

End Monad.
Export Monad.
Local Open Scope js_scope.

(* ===================================================================== *)
(** ** lambda-test-helper.ts *)
(* ===================================================================== *)

Module LambdaTestHelper.
Section WithRemote.

Variable remote : Remote.

(** [sendMessage]: one [SendMessageCommand]; [response.MessageId || ''] *)
Definition sendMessage (queueUrl : string) (m : SQSMessage) : M string :=
  fun w =>
    (response <- await (EvSend queueUrl m)
                       (sqs_send remote (calls w) (clock w) queueUrl m) ;;
     ret (match response with Some id => id | None => EmptyString end)) w.

(** [sendMessages]: the messages one after the other, each awaited before
    the next, the ids pushed in order. *)
Fixpoint sendMessages_from (queueUrl : string) (messages : list SQSMessage)
         (messageIds : list string) : M (list string) :=
  match messages with
  | [] => ret messageIds
  | m :: rest =>
      messageId <- sendMessage queueUrl m ;;
      sendMessages_from queueUrl rest (messageIds ++ [messageId])
  end.

Definition sendMessages (queueUrl : string) (messages : list SQSMessage)
  : M (list string) :=
  sendMessages_from queueUrl messages [].

(** [receiveMessages]: one [ReceiveMessageCommand]; [response.Messages || []] *)
Definition receiveMessages (queueUrl : string) (maxMessages : Z)
  : M (list Message) :=
  fun w =>
    (response <- await (EvReceive queueUrl maxMessages)
                       (sqs_receive remote (calls w) (clock w)
                                    queueUrl maxMessages) ;;
     ret (or_empty response)) w.

(** [deleteMessage]: one [DeleteMessageCommand] *)
Definition deleteMessage (queueUrl receiptHandle : string) : M unit :=
  fun w =>
    await (EvDelete queueUrl receiptHandle)
          (sqs_delete remote (calls w) (clock w) queueUrl receiptHandle) w.

(** [purgeQueue]: the loop-carried variable is [messages]. *)
Definition purge_cond (messages : list Message) : M bool :=
  ret (0 <? Z.of_nat (List.length messages)).

Definition purge_body (queueUrl : string) (messages : list Message)
  : M (Step (list Message) unit) :=
  for_of messages (fun m => deleteMessage queueUrl (ReceiptHandle m)) ;;;
  messages' <- receiveMessages queueUrl 10 ;;
  ret (Continue messages').

Definition purgeQueue (fuel : nat) (queueUrl : string) : M unit :=
  messages <- receiveMessages queueUrl 10 ;;
  while fuel purge_cond (purge_body queueUrl) messages ;;;
  ret tt.

(** The message of the error thrown at the end of [waitForLambdaProcessing]. *)
Definition timeout_message (expectedMessageCount : Z) : string :=
  ("Timeout waiting for Lambda processing. Expected "
     ++ toString expectedMessageCount ++ " messages")%string.

Definition wait_cond (startTime timeoutMs : Z) (_ : unit) : M bool :=
  t <- Date_now ;;
  ret (t - startTime <? timeoutMs).

Definition wait_body (queueUrl : string) (expectedMessageCount : Z)
           (_ : unit) : M (Step unit unit) :=
  messages <- receiveMessages queueUrl 10 ;;
  if Z.of_nat (List.length messages) =? expectedMessageCount
  then ret (Return tt)
  else ret (Continue tt).

(** [waitForLambdaProcessing(queueUrl, expectedMessageCount = 0,
    timeoutMs = 30000)] *)
Definition waitForLambdaProcessing (fuel : nat) (queueUrl : string)
           (expectedMessageCount timeoutMs : Z) : M unit :=
  startTime <- Date_now ;;
  sleep 10000 ;;;
  r <- while fuel (wait_cond startTime timeoutMs)
             (wait_body queueUrl expectedMessageCount) tt ;;
  match r with
  | Return _ => ret tt
  | Continue _ => throw (Error (timeout_message expectedMessageCount))
  end.

End WithRemote.
End LambdaTestHelper.
Export LambdaTestHelper.

(* ===================================================================== *)
(** ** test-utilities/cloudwatch-logs-utils.ts *)
(* ===================================================================== *)

Module CloudWatchLogsHelper.

Record CloudWatchLogFilter : Type := {
  filter_filterPattern : string;
  filter_startTime : Z
}.

Section WithRemote.

Variable remote : Remote.

Definition timeoutMs : Z := 30 * 1000.

Definition logs_cond (startTime : Z) (_ : unit) : M bool :=
  t <- Date_now ;;
  ret (t - startTime <? timeoutMs).

Definition logs_command (lambdaFunction : string)
           (filter : CloudWatchLogFilter) (endTime : Z)
  : FilterLogEventsCommand :=
  {| logGroupName := ("/aws/lambda/" ++ lambdaFunction)%string;
     filterPattern := filter_filterPattern filter;
     startTime := filter_startTime filter;
     endTime := endTime |}.

Definition logs_body (lambdaFunction : string) (filter : CloudWatchLogFilter)
           (_ : unit) : M (Step unit (list FilteredLogEvent)) :=
  endTime <- Date_now ;;
  response <- (fun w =>
                 await (EvFilterLogEvents
                          (logs_command lambdaFunction filter endTime))
                       (logs_filter remote (calls w) (clock w)
                          (logs_command lambdaFunction filter endTime)) w) ;;
  let events := or_empty response in
  if 0 <? Z.of_nat (List.length events)
  then ret (Return events)
  else sleep 1000 ;;; ret (Continue tt).

(** [getLogEvents(lambdaFunction, filter)] *)
Definition getLogEvents (fuel : nat) (lambdaFunction : string)
           (filter : CloudWatchLogFilter) : M (list FilteredLogEvent) :=
  let startTime := filter_startTime filter in
  r <- while fuel (logs_cond startTime)
             (logs_body lambdaFunction filter) tt ;;
  match r with
  | Return events => ret events
  | Continue _ => ret []
  end.

End WithRemote.
End CloudWatchLogsHelper.
Export CloudWatchLogsHelper.
Arguments timeoutMs : simpl never.

(* ===================================================================== *)
(** ** lambda-test-config.ts: [testLoadPerformance] *)
(* ===================================================================== *)

Module LambdaTestSuite.

(** [messages.slice(i, j)] for [0 <= i <= j] *)
Definition slice {A} (i j : nat) (xs : list A) : list A :=
  firstn (j - i) (skipn i xs).

Definition quote : string := String (ascii_of_nat 34) EmptyString.

(** [JSON.stringify({ id: i, timestamp: ts })] for a number [i] and a
    string [ts] without characters to escape. *)
Definition JSON_stringify_id_timestamp (i : Z) (ts : string) : string :=
  ("{" ++ quote ++ "id" ++ quote ++ ":" ++ toString i ++ ","
       ++ quote ++ "timestamp" ++ quote ++ ":" ++ quote ++ ts ++ quote
       ++ "}")%string.

(** The fields of [LambdaTestConfig] that [testLoadPerformance] reads.
    [timeout] is optional; [None] also stands for the [NaN] that
    [parseInt] may have produced, which is falsy like 0. *)
Record SuiteConfig : Type := {
  config_queueUrl : string;
  config_timeout : option Z
}.

(** [x || d] on an optional number *)
Definition number_or (x : option Z) (d : Z) : Z :=
  match x with
  | Some v => if v =? 0 then d else v
  | None => d
  end.

(** [x / y] on numbers, taken on the rationals; [None] stands for the
    non-finite results of a division by zero. *)
Definition divide (x y : Q) : option Q :=
  if Qeq_bool y 0 then None else Some (x / y)%Q.

(** What [testLoadPerformance] returns. *)
Record LoadResult : Type := {
  result_messageCount : nat;
  result_totalTime : Z;
  result_throughput : option Q;
  result_averageTimePerMessage : option Q
}.

(** The promise of a call of [sendMessages] that is not awaited where it
    is made.  [Pending]: the call is suspended at the [await] of the send
    of [inflight], which settles at [settles_at] with [outcome]; [rest]
    are the messages of the loop still to come and [messageIds] the ids
    pushed so far.  [Fulfilled]: the call has returned [messageIds]. *)
Inductive Promise : Type :=
| Pending (queueUrl : string) (inflight : SQSMessage) (settles_at : Z)
          (outcome : string + option string)
          (rest : list SQSMessage) (messageIds : list string)
| Fulfilled (messageIds : list string).

(** [l[j] = a] for [j] within [l] *)
Fixpoint set_nth {A} (j : nat) (a : A) (l : list A) : list A :=
  match l, j with
  | [], _ => []
  | _ :: rest, O => a :: rest
  | x :: rest, S j' => x :: set_nth j' a rest
  end.

Definition settlement (p : Promise) : option Z :=
  match p with
  | Pending _ _ t _ _ _ => Some t
  | Fulfilled _ => None
  end.

(** The pending promise whose send settles first, with its index; of two
    sends that settle in the same millisecond the one of the earlier
    promise is taken first. *)
Fixpoint earliest (promises : list Promise) : option (nat * Z) :=
  match promises with
  | [] => None
  | p :: rest =>
      let later :=
        match earliest rest with
        | Some (j, t) => Some (S j, t)
        | None => None
        end in
      match settlement p, later with
      | Some t, Some (j, t') => if t' <? t then Some (j, t') else Some (O, t)
      | Some t, None => Some (O, t)
      | None, _ => later
      end
  end.

Definition messageIds_of (p : Promise) : list string :=
  match p with
  | Pending _ _ _ _ _ messageIds => messageIds
  | Fulfilled messageIds => messageIds
  end.

Section Partition.

(** [new Date().toISOString()] as a function of [Date.now()]. *)
Variable toISOString : Z -> string.

Variable remote : Remote.

(** [Array.from({ length: messageCount }, (_, i) => ({ body: ... }))]:
    built without any await, so with one and the same clock value. *)
Definition generate_messages (now : Z) (messageCount : nat)
  : list SQSMessage :=
  map (fun i => {| body := JSON_stringify_id_timestamp
                             (Z.of_nat i) (toISOString now);
                   messageAttributes := None |})
      (seq 0 messageCount).

(** [Math.ceil(messageCount / concurrencyLevel)].  [None] stands for the
    two non-finite results of a division by zero ([Infinity], and [NaN]
    for 0/0). *)
Definition batchSize_of (messageCount concurrencyLevel : nat) : option nat :=
  match concurrencyLevel with
  | O => None
  | S _ =>
      Some (if (messageCount mod concurrencyLevel =? 0)%nat
            then (messageCount / concurrencyLevel)%nat
            else S (messageCount / concurrencyLevel))
  end.

(** [sendMessages(queueUrl, messages)] called without [await]: the body of
    the async function runs up to its first suspension, the loop being
    entered with [messageIds] pushed so far.  With no message left the
    call returns; otherwise [sendMessage] issues the
    [SendMessageCommand] of the next message and the call is suspended
    until the send settles.  The send is recorded when it is issued; the
    clock does not move. *)
Definition sendMessages_called (queueUrl : string)
           (messages : list SQSMessage) (messageIds : list string)
  : M Promise :=
  match messages with
  | [] => ret (Fulfilled messageIds)
  | m :: rest =>
      fun w =>
        let reply := sqs_send remote (calls w) (clock w) queueUrl m in
        (Returned (Pending queueUrl m (clock w + Z.of_N (latency reply))
                           (settled reply) rest messageIds),
         {| clock := clock w;
            calls := S (calls w);
            trace := trace w ++ [(clock w, EvSend queueUrl m (settled reply))] |})
  end.

(** The send a pending call is suspended at has settled: a rejection is
    thrown through [sendMessage] and [sendMessages], nothing catches it;
    otherwise [response.MessageId || ''] is pushed and the loop goes on
    with the next message. *)
Definition resume (p : Promise) : M Promise :=
  match p with
  | Pending queueUrl _ _ (inl reason) _ _ => throw (SdkRejection reason)
  | Pending queueUrl _ _ (inr response) rest messageIds =>
      sendMessages_called
        queueUrl rest
        (messageIds ++ [match response with
                        | Some id => id
                        | None => EmptyString
                        end])
  | Fulfilled _ => ret p
  end.

(** The time passes until [t]. *)
Definition advance_to (t : Z) : M unit :=
  fun w => (Returned tt,
            {| clock := Z.max (clock w) t;
               calls := calls w;
               trace := trace w |}).

(** [await Promise.all(batches)]: while a call is pending, the send that
    settles first is awaited and its call resumed; the first rejection
    rejects the whole, and is thrown at the [await] (what the calls still
    pending do after that is not awaited by anything); when every call
    has returned, the results are returned in the order of the
    promises. *)
Fixpoint Promise_all (fuel : nat) (promises : list Promise)
  : M (list (list string)) :=
  match earliest promises with
  | None => ret (map messageIds_of promises)
  | Some (j, t) =>
      match fuel with
      | O => out_of_fuel
      | S fuel' =>
          advance_to t ;;;
          p <- resume (nth j promises (Fulfilled [])) ;;
          Promise_all fuel' (set_nth j p promises)
      end
  end.

(** [for (let i = 0; i < messageCount; i += batchSize) {
       const batch = messages.slice(i, i + batchSize);
       batches.push(this.lambdaHelper.sendMessages(queueUrl, batch)); }]:
    each slice is handed to a call of [sendMessages] that is not awaited.
    With a non-finite [batchSize] the first slice takes the rest and [i]
    stops the loop. *)
Fixpoint batch_loop (fuel : nat) (queueUrl : string)
         (messages : list SQSMessage) (messageCount : nat)
         (batchSize : option nat) (i : nat) (batches : list Promise)
  : M (list Promise) :=
  match fuel with
  | O => out_of_fuel
  | S fuel' =>
      if (i <? messageCount)%nat then
        match batchSize with
        | Some b =>
            let batch := slice i (i + b) messages in
            p <- sendMessages_called queueUrl batch [] ;;
            batch_loop fuel' queueUrl messages messageCount batchSize
                       (i + b) (batches ++ [p])
        | None =>
            let batch := skipn i messages in
            p <- sendMessages_called queueUrl batch [] ;;
            ret (batches ++ [p])
        end
      else ret batches
  end.

(** [testLoadPerformance(messageCount, concurrencyLevel = 5)] *)
Definition testLoadPerformance (fuel : nat) (config : SuiteConfig)
           (messageCount concurrencyLevel : nat) : M LoadResult :=
  purgeQueue remote fuel (config_queueUrl config) ;;;
  now <- Date_now ;;
  let messages := generate_messages now messageCount in
  startTime <- Date_now ;;
  let batchSize := batchSize_of messageCount concurrencyLevel in
  batches <- batch_loop fuel (config_queueUrl config) messages messageCount
                        batchSize 0 [] ;;
  Promise_all fuel batches ;;;
  waitForLambdaProcessing remote fuel (config_queueUrl config) 0
                          (number_or (config_timeout config) 60000) ;;;
  finish <- Date_now ;;
  let totalTime := finish - startTime in
  ret {| result_messageCount := messageCount;
         result_totalTime := totalTime;
         result_throughput :=
           divide (inject_Z (Z.of_nat messageCount))
                  (inject_Z totalTime / 1000)%Q;
         result_averageTimePerMessage :=
           divide (inject_Z totalTime)
                  (inject_Z (Z.of_nat messageCount)) |}.

End Partition.
End LambdaTestSuite.
Export LambdaTestSuite.

(* ===================================================================== *)
(** ** test-utilities/file-utils.ts: [waitForFile] *)
(* ===================================================================== *)

Module FileUtils.
Section WithRemote.

Variable remote : Remote.

Definition pollInterval : Z := 500.

(** [timeoutMs / pollInterval] is a division of numbers, not of integers. *)
Definition maxTries (timeoutMs : Z) : Q :=
  (inject_Z timeoutMs / inject_Z pollInterval)%Q.

(** [await fileExists(filePath)]; [fs.exists] never rejects. *)
Definition fileExists (filePath : string) : M bool :=
  fun w =>
    let (d, found) := fs_exists remote (calls w) (clock w) filePath in
    (Returned found, elapse (Z.of_N d) (EvExists filePath found) w).

Definition file_cond (timeoutMs : Z) (i : Z) : M bool :=
  ret (match (inject_Z i ?= maxTries timeoutMs)%Q with
       | Lt => true
       | _ => false
       end).

Definition file_body (filePath : string) (i : Z) : M (Step Z bool) :=
  found <- fileExists filePath ;;
  if found then ret (Return true)
  else sleep pollInterval ;;; ret (Continue (i + 1)).

(** [waitForFile(filePath, timeoutMs = 10000)] *)
Definition waitForFile (fuel : nat) (filePath : string) (timeoutMs : Z)
  : M bool :=
  r <- while fuel (file_cond timeoutMs) (file_body filePath) 0 ;;
  match r with
  | Return found => ret found
  | Continue _ => ret false
  end.

End WithRemote.
End FileUtils.
Export FileUtils.

(* ===================================================================== *)
(** ** test-utilities/dynamodb-utils.ts: [toDynamoFormat] *)
(* ===================================================================== *)

Module DynamoDBTestHelper.

(** The values a [Record<string, any>] may hold.  Numbers are modelled on
    the integers.  An object is the list of its own enumerable
    string-keyed properties as [Object.entries] lists them.  [JFunction]
    stands for the values whose [typeof] is none of string, number,
    boolean, object and that are not [undefined]. *)
Inductive JsValue : Type :=
| JString (s : string)
| JNumber (n : Z)
| JBoolean (b : bool)
| JNull
| JUndefined
| JArray (elements : list JsValue)
| JObject (fields : list (string * JsValue))
| JFunction.

(** The DynamoDB attribute values the encoder builds: [{ S: .. }],
    [{ N: .. }], [{ BOOL: .. }], [{ L: [..] }], [{ M: {..} }],
    [{ NULL: true }]. *)
Inductive AttributeValue : Type :=
| AV_S (s : string)
| AV_N (s : string)
| AV_BOOL (b : bool)
| AV_L (l : list AttributeValue)
| AV_M (m : list (string * AttributeValue))
| AV_NULL (b : bool).

(** [result[key] = a]: replaces the value of an existing key in place,
    appends a new key. *)
Fixpoint assign {A} (result : list (string * A)) (key : string) (a : A)
  : list (string * A) :=
  match result with
  | [] => [(key, a)]
  | (k, x) :: rest =>
      if String.eqb k key then (k, a) :: rest
      else (k, x) :: assign rest key a
  end.

(** One round of the [for] loop: a value that matches no branch leaves
    [result] as it is. *)
Definition assign_opt {A} (result : list (string * A)) (key : string)
           (a : option A) : list (string * A) :=
  match a with
  | Some x => assign result key x
  | None => result
  end.

(** [Object.entries] of an array: the indices as keys. *)
Definition array_entries {A} (elements : list A) : list (string * A) :=
  combine (map (fun i => toString (Z.of_nat i)) (seq 0 (List.length elements)))
          elements.

(** [encode_field value] is the chain of [if]s on a field's value in the
    [for] loop ([None]: no branch, the key is not set);
    [encode_element v] is the callback of [value.map(...)].  The local
    [fields] and [indexed] are the [for] loop of [toDynamoFormat] over the
    entries of an object and of an array. *)
Fixpoint encode_field (value : JsValue) : option AttributeValue :=
  match value with
  | JString s => Some (AV_S s)
  | JNumber n => Some (AV_N (toString n))
  | JBoolean b => Some (AV_BOOL b)
  | JArray elements =>
      Some (AV_L ((fix each (l : list JsValue) : list AttributeValue :=
                     match l with
                     | [] => []
                     | v :: rest => encode_element v :: each rest
                     end) elements))
  | JObject fs =>
      Some (AV_M ((fix fields (l : list (string * JsValue))
                       (result : list (string * AttributeValue)) :=
                     match l with
                     | [] => result
                     | (key, v) :: rest =>
                         fields rest (assign_opt result key (encode_field v))
                     end) fs []))
  | JNull | JUndefined => Some (AV_NULL true)
  | JFunction => None
  end
with encode_element (v : JsValue) : AttributeValue :=
  match v with
  | JString s => AV_S s
  | JNumber n => AV_N (toString n)
  | JBoolean b => AV_BOOL b
  | JArray elements =>
      AV_M ((fix indexed (i : nat) (l : list JsValue)
                 (result : list (string * AttributeValue)) :=
               match l with
               | [] => result
               | x :: rest =>
                   indexed (S i) rest
                           (assign_opt result (toString (Z.of_nat i))
                                       (encode_field x))
               end) O elements [])
  | JObject fs =>
      AV_M ((fix fields (l : list (string * JsValue))
                 (result : list (string * AttributeValue)) :=
               match l with
               | [] => result
               | (key, x) :: rest =>
                   fields rest (assign_opt result key (encode_field x))
               end) fs [])
  | JNull | JUndefined | JFunction => AV_NULL true
  end.

(** [toDynamoFormat(data)] on the entries of [data]. *)
Definition toDynamoFormat_from (data : list (string * JsValue))
           (result : list (string * AttributeValue))
  : list (string * AttributeValue) :=
  fold_left (fun result kv => assign_opt result (fst kv) (encode_field (snd kv)))
            data result.

Definition toDynamoFormat (data : list (string * JsValue))
  : list (string * AttributeValue) :=
  toDynamoFormat_from data [].

(** The closed tag table of the key-value encoding as the spec words it,
    read as a recursive encoder, to be compared with [encode_field]:
    strings under the string tag, numbers stringified under the number
    tag, booleans under the boolean tag, lists element by element under
    the list tag, nested records as maps, null and absent values under the
    null tag.  The table has no row for [JFunction]. *)
Fixpoint spec_encode (value : JsValue) : option AttributeValue :=
  match value with
  | JString s => Some (AV_S s)
  | JNumber n => Some (AV_N (toString n))
  | JBoolean b => Some (AV_BOOL b)
  | JNull | JUndefined => Some (AV_NULL true)
  | JArray elements =>
      option_map AV_L
        ((fix each (l : list JsValue) : option (list AttributeValue) :=
            match l with
            | [] => Some []
            | v :: rest =>
                match spec_encode v, each rest with
                | Some a, Some r => Some (a :: r)
                | _, _ => None
                end
            end) elements)
  | JObject fs =>
      option_map AV_M
        ((fix each (l : list (string * JsValue))
            : option (list (string * AttributeValue)) :=
            match l with
            | [] => Some []
            | (key, v) :: rest =>
                match spec_encode v, each rest with
                | Some a, Some r => Some ((key, a) :: r)
                | _, _ => None
                end
            end) fs)
  | JFunction => None
  end.

(** Modelled from the spec: the decoder of the key-value encoding, which
    the repository does not contain (records are read back through the
    SDK): each tag is read back as the native value it wraps. *)
Fixpoint decode (a : AttributeValue) : option JsValue :=
  match a with
  | AV_S s => Some (JString s)
  | AV_N s => option_map JNumber (parseNumber s)
  | AV_BOOL b => Some (JBoolean b)
  | AV_NULL _ => Some JNull
  | AV_L l =>
      option_map JArray
        ((fix each (l : list AttributeValue) : option (list JsValue) :=
            match l with
            | [] => Some []
            | x :: rest =>
                match decode x, each rest with
                | Some v, Some r => Some (v :: r)
                | _, _ => None
                end
            end) l)
  | AV_M m =>
      option_map JObject
        ((fix each (l : list (string * AttributeValue))
            : option (list (string * JsValue)) :=
            match l with
            | [] => Some []
            | (key, x) :: rest =>
                match decode x, each rest with
                | Some v, Some r => Some ((key, v) :: r)
                | _, _ => None
                end
            end) m)
  end.

Definition decode_record (item : list (string * AttributeValue))
  : option (list (string * JsValue)) :=
  match decode (AV_M item) with
  | Some (JObject fs) => Some fs
  | _ => None
  end.

End DynamoDBTestHelper.
Export DynamoDBTestHelper.


(* ===================================================================== *)
(** ** Vocabulary of the statements *)
(* ===================================================================== *)

(** The events a run appended to the trace are the new suffix. *)
Definition appended (w w' : World) (events : list (Z * Event)) : Prop :=
  trace w' = trace w ++ events.

(** The world when the initial delay of [waitForLambdaProcessing] is over. *)
Definition after_delay (w : World) : World :=
  {| clock := clock w + 10000;
     calls := calls w;
     trace := trace w ++ [(clock w, EvSleep 10000)] |}.

(** The three ways a batch read of the queue-drain poller can end. *)
Definition unsatisfied_read (queueUrl : string) (expected : Z)
           (e : Z * Event) : Prop :=
  exists response,
    snd e = EvReceive queueUrl 10 (inr response) /\
    Z.of_nat (List.length (or_empty response)) <> expected.

Definition satisfied_read (queueUrl : string) (expected : Z)
           (e : Z * Event) : Prop :=
  exists response,
    snd e = EvReceive queueUrl 10 (inr response) /\
    Z.of_nat (List.length (or_empty response)) = expected.

Definition rejected_read (queueUrl reason : string) (e : Z * Event) : Prop :=
  snd e = EvReceive queueUrl 10 (inl reason).

(** An event issued at or after [from] and strictly less than [budget]
    after [start]. *)
Definition issued_within (from start budget : Z) (e : Z * Event) : Prop :=
  from <= fst e /\ fst e - start < budget.

(** How the reads of a queue-drain poll relate to the way it ended. *)
Definition drain_outcome (queueUrl : string) (expected : Z)
           (r : Completion unit) (reads : list (Z * Event)) : Prop :=
  match r with
  | Returned _ =>
      exists pre last,
        reads = pre ++ [last] /\ satisfied_read queueUrl expected last /\
        Forall (unsatisfied_read queueUrl expected) pre
  | Thrown (Error m) =>
      m = timeout_message expected /\
      Forall (unsatisfied_read queueUrl expected) reads
  | Thrown (SdkRejection reason) =>
      exists pre last,
        reads = pre ++ [last] /\ rejected_read queueUrl reason last /\
        Forall (unsatisfied_read queueUrl expected) pre
  | OutOfFuel => Forall (unsatisfied_read queueUrl expected) reads
  end.

(** *** Concrete worlds and remote sides, for the examples *)

Definition epoch : Z := 1700000000000.

Definition at_epoch : World := {| clock := epoch; calls := O; trace := [] |}.

Definition ping (i : string) : Message :=
  {| MessageId := i; ReceiptHandle := ("rh-" ++ i)%string; Body := "ping" |}.

Definition five_messages : list Message :=
  [ping "1"; ping "2"; ping "3"; ping "4"; ping "5"].

Definition three_messages : list Message := [ping "1"; ping "2"; ping "3"].

(** A queue nobody consumes: every read lasts a second and shows [held]; a
    quiet log group; no file. *)
Definition stuck_queue (held : list Message) : Remote :=
  {| sqs_receive := fun _ _ _ _ => {| latency := 1000; settled := inr (Some held) |};
     sqs_delete := fun _ _ _ _ => {| latency := 20; settled := inr tt |};
     sqs_send := fun _ _ _ _ => {| latency := 20; settled := inr (Some "id") |};
     logs_filter := fun _ _ _ => {| latency := 200; settled := inr (Some []) |};
     fs_exists := fun _ _ _ => (1%N, false) |}.

(** A queue that holds [held] until [drained_at] and is empty afterwards
    (the response then has no [Messages] field). *)
Definition draining_queue (held : list Message) (drained_at : Z) : Remote :=
  {| sqs_receive := fun _ t _ _ =>
       {| latency := 1000;
          settled := inr (if t <? drained_at then Some held else None) |};
     sqs_delete := fun _ _ _ _ => {| latency := 20; settled := inr tt |};
     sqs_send := fun _ _ _ _ => {| latency := 20; settled := inr (Some "id") |};
     logs_filter := fun _ _ _ => {| latency := 200; settled := inr (Some []) |};
     fs_exists := fun _ _ _ => (1%N, false) |}.

(** A remote side whose calls are rejected from the call of rank [k] on;
    before that the queue holds [held] and the log group is quiet. *)
Definition failing_from (k : nat) (held : list Message) : Remote :=
  {| sqs_receive := fun n _ _ _ =>
       {| latency := 1000;
          settled := if (n <? k)%nat then inr (Some held)
                     else inl "ExpiredToken" |};
     sqs_delete := fun n _ _ _ =>
       {| latency := 20;
          settled := if (n <? k)%nat then inr tt else inl "ExpiredToken" |};
     sqs_send := fun n _ _ _ =>
       {| latency := 20;
          settled := if (n <? k)%nat then inr (Some "id")
                     else inl "ExpiredToken" |};
     logs_filter := fun n _ _ =>
       {| latency := 200;
          settled := if (n <? k)%nat then inr (Some [])
                     else inl "ExpiredToken" |};
     fs_exists := fun _ _ _ => (1%N, false) |}.

(** C3 as it is worded: the timeout error of the queue-drain poller would
    carry the last observed count, that is, the count of the last read
    could be read off the error that is thrown. *)
Definition timeout_reports_last_observed : Prop :=
  exists observed_of : JsError -> Z,
    forall remote queueUrl n timeoutMs fuel w m pre t response,
      let run := waitForLambdaProcessing remote fuel queueUrl n timeoutMs w in
      fst run = Thrown (Error m) ->
      appended w (snd run)
               ((clock w, EvSleep 10000)
                  :: pre ++ [(t, EvReceive queueUrl 10 (inr response))]) ->
      observed_of (Error m) = Z.of_nat (List.length (or_empty response)).

(** *** The log-appearance poller *)

(** The query issued at time [t]: its window ends at [t]. *)
Definition query_at (lambdaFunction : string) (filter : CloudWatchLogFilter)
           (t : Z) (r : string + option (list FilteredLogEvent)) : Z * Event :=
  (t, EvFilterLogEvents (logs_command lambdaFunction filter t) r).

(** An attempt without a match [(t, response, t')]: the query issued at [t]
    resolved with [response], then the sleep of 1000 ms began at [t']. *)
Definition idle_attempt (lambdaFunction : string) (filter : CloudWatchLogFilter)
           (a : Z * option (list FilteredLogEvent) * Z) : list (Z * Event) :=
  let '(t, response, t') := a in
  [query_at lambdaFunction filter t (inr response); (t', EvSleep 1000)].

Definition idle_ok (from start : Z)
           (a : Z * option (list FilteredLogEvent) * Z) : Prop :=
  let '(t, response, t') := a in
  or_empty response = [] /\ from <= t /\ t - start < timeoutMs /\ t <= t'.

(** How the last event of a log poll relates to the way it ended: [final]
    is what follows the attempts without a match. *)
Definition logs_outcome (lambdaFunction : string) (filter : CloudWatchLogFilter)
           (from : Z) (r : Completion (list FilteredLogEvent))
           (final : list (Z * Event)) (w' : World) : Prop :=
  match r with
  | Returned [] =>
      final = [] /\ timeoutMs <= clock w' - filter_startTime filter
  | Returned events =>
      exists t response,
        final = [query_at lambdaFunction filter t (inr response)] /\
        or_empty response = events /\
        from <= t /\ t - filter_startTime filter < timeoutMs
  | Thrown e =>
      exists t reason,
        e = SdkRejection reason /\
        final = [query_at lambdaFunction filter t (inl reason)] /\
        from <= t /\ t - filter_startTime filter < timeoutMs
  | OutOfFuel => final = []
  end.

(** The query of a poll for [filter] on [lambdaFunction]: the window starts
    at the filter's bound and ends at the time the query is issued at. *)
Definition well_formed_query (lambdaFunction : string)
           (filter : CloudWatchLogFilter) (e : Z * Event) : Prop :=
  match snd e with
  | EvFilterLogEvents c _ =>
      logGroupName c = ("/aws/lambda/" ++ lambdaFunction)%string /\
      filterPattern c = filter_filterPattern filter /\
      startTime c = filter_startTime filter /\
      endTime c = fst e
  | EvSleep ms => ms = 1000
  | _ => False
  end.

(** A log group in which no query ever matches and no query is rejected. *)
Definition quiet_logs (remote : Remote) : Prop :=
  forall k t c, exists response,
    settled (logs_filter remote k t c) = inr response /\
    or_empty response = [].

Definition hello : FilteredLogEvent :=
  {| timestamp := epoch + 2500; message := "hello-test-42" |}.

(** A log group that receives [entry] at the entry's timestamp: a query
    returns it when its window contains the timestamp. *)
Definition logs_with (entry : FilteredLogEvent) : Remote :=
  {| sqs_receive := fun _ _ _ _ => {| latency := 1000; settled := inr None |};
     sqs_delete := fun _ _ _ _ => {| latency := 20; settled := inr tt |};
     sqs_send := fun _ _ _ _ => {| latency := 20; settled := inr (Some "id") |};
     logs_filter := fun _ _ c =>
       {| latency := 200;
          settled := inr (if (startTime c <=? timestamp entry)
                             && (timestamp entry <=? endTime c)
                          then Some [entry] else Some []) |};
     fs_exists := fun _ _ _ => (1%N, false) |}.

Definition hello_filter : CloudWatchLogFilter :=
  {| filter_filterPattern := "hello-test-42"; filter_startTime := epoch - 1000 |}.

Definition rejected_query (reason : string) (e : Z * Event) : Prop :=
  exists c, snd e = EvFilterLogEvents c (inl reason).

(** C1 as it is worded: a call of either poller, when it ends, ends no
    later than its timeout after it was invoked (the timeout of
    [getLogEvents] is its constant of 30000 ms). *)
Definition drain_ends_within_timeout : Prop :=
  forall remote queueUrl n timeout fuel w,
    let run := waitForLambdaProcessing remote fuel queueUrl n timeout w in
    fst run <> OutOfFuel -> clock (snd run) - clock w <= timeout.

Definition logs_end_within_timeout : Prop :=
  forall remote lambdaFunction filter fuel w,
    let run := getLogEvents remote fuel lambdaFunction filter w in
    fst run <> OutOfFuel -> clock (snd run) - clock w <= timeoutMs.

Definition pollers_end_within_timeout : Prop :=
  drain_ends_within_timeout /\ logs_end_within_timeout.

(** A call of getLogEvents from world [w] to world [w'] that either issued
    no query and ended when it began, or ended at most [L + 1000] after it
    issued its last query, which nothing or one sleep of 1000 ms follows. *)
Definition ended_after_last_query (L : Z) (w w' : World) : Prop :=
  (appended w w' [] /\ clock w' = clock w) \/
  (exists pre t c r post,
     appended w w' (pre ++ (t, EvFilterLogEvents c r) :: post) /\
     (post = [] \/ exists t', post = [(t', EvSleep 1000)]) /\
     clock w' <= t + L + 1000).

(** A quiet log group whose queries take 700 ms. *)
Definition slow_quiet_logs : Remote :=
  {| sqs_receive := fun _ _ _ _ => {| latency := 1000; settled := inr None |};
     sqs_delete := fun _ _ _ _ => {| latency := 20; settled := inr tt |};
     sqs_send := fun _ _ _ _ => {| latency := 20; settled := inr (Some "id") |};
     logs_filter := fun _ _ _ => {| latency := 700; settled := inr (Some []) |};
     fs_exists := fun _ _ _ => (1%N, false) |}.

(** The claim about the deadline of [getLogEvents], as it is worded: the
    loop would go on exactly while less than the budget has passed since the
    call began, whatever [filter.startTime] is: no query is issued later than
    that, and the poll gives up empty-handed only once the budget has passed
    since the call began. *)
Definition logs_deadline_from_call_start : Prop :=
  forall remote lambdaFunction filter fuel w,
    let run := getLogEvents remote fuel lambdaFunction filter w in
    (forall events e,
       appended w (snd run) events -> In e events ->
       fst e - clock w < timeoutMs) /\
    (fst run = Returned [] -> timeoutMs <= clock (snd run) - clock w).

(** The log-appearance poller as the spec words its deadline, "measured
    from the operation's own start", as the queue-drain poller has it: the
    start time is the clock at entry; the rest is [getLogEvents]. *)
Definition spec_getLogEvents (remote : Remote) (fuel : nat)
           (lambdaFunction : string) (filter : CloudWatchLogFilter)
  : M (list FilteredLogEvent) :=
  startTime <- Date_now ;;
  r <- while fuel (logs_cond startTime)
             (logs_body remote lambdaFunction filter) tt ;;
  match r with
  | Return events => ret events
  | Continue _ => ret []
  end.

(** A line logged five seconds before the epoch, and a filter whose window
    starts a minute before the epoch. *)
Definition earlier_line : FilteredLogEvent :=
  {| timestamp := epoch - 5000; message := "hello-test-42" |}.

Definition minute_filter : CloudWatchLogFilter :=
  {| filter_filterPattern := "hello-test-42";
     filter_startTime := epoch - 60000 |}.

(** *** Purge *)

(** What a run did, without the times. *)
Definition actions (w : World) : list Event := map snd (trace w).

Definition delete_of (queueUrl : string) (m : Message) : Event :=
  EvDelete queueUrl (ReceiptHandle m) (inr tt).

(** A round of purge: a batch is read, then each of its entries is deleted,
    in order. *)
Definition purge_round (queueUrl : string) (batch : option (list Message))
  : list Event :=
  EvReceive queueUrl 10 (inr batch) :: map (delete_of queueUrl) (or_empty batch).

(** How a purge ends, after its complete rounds: [last] is what follows
    them, [rounds] is their number. *)
Definition purge_outcome (queueUrl : string) (fuel : nat)
           (r : Completion unit) (rounds : nat) (last : list Event) : Prop :=
  match r with
  | Returned _ =>
      exists response,
        last = [EvReceive queueUrl 10 (inr response)] /\
        or_empty response = []
  | Thrown e =>
      exists reason,
        e = SdkRejection reason /\
        (last = [EvReceive queueUrl 10 (inl reason)] \/
         exists response deleted m rest,
           or_empty response = deleted ++ m :: rest /\
           last = EvReceive queueUrl 10 (inr response)
                    :: map (delete_of queueUrl) deleted
                    ++ [EvDelete queueUrl (ReceiptHandle m) (inl reason)])
  | OutOfFuel =>
      rounds = fuel /\
      exists response, last = [EvReceive queueUrl 10 (inr response)]
  end.

(** A queue whose reads follow a script: the call of rank [k] of the run,
    when it is a read, returns the entry of rank [k] of the script, and
    nothing beyond the script. *)
Definition scripted_queue (script : list (option (list Message))) : Remote :=
  {| sqs_receive := fun k _ _ _ =>
       {| latency := 50; settled := inr (nth k script None) |};
     sqs_delete := fun _ _ _ _ => {| latency := 20; settled := inr tt |};
     sqs_send := fun _ _ _ _ => {| latency := 20; settled := inr (Some "id") |};
     logs_filter := fun _ _ _ => {| latency := 200; settled := inr (Some []) |};
     fs_exists := fun _ _ _ => (1%N, false) |}.

(** *** waitForFile *)

(** A check that did not find the file, issued at [t], and the sleep of
    500 ms that follows it, begun at [t']. *)
Definition missed_check (filePath : string) (a : Z * Z) : list (Z * Event) :=
  [(fst a, EvExists filePath false); (snd a, EvSleep 500)].

(** The number of rounds [for (let i = 0; i < timeoutMs / 500; i++)] allows:
    the least integer that is not below [timeoutMs / 500], and none for a
    timeout that is not positive. *)
Definition tries_allowed (timeout : Z) : Z := Z.max 0 ((timeout + 499) / 500).

Definition file_outcome (filePath : string) (timeout : Z) (fuel : nat)
           (r : Completion bool) (misses : list (Z * Z))
           (final : list (Z * Event)) : Prop :=
  match r with
  | Returned true => exists t, final = [(t, EvExists filePath true)]
  | Returned false =>
      final = [] /\ Z.of_nat (List.length misses) = tries_allowed timeout
  | Thrown _ => False
  | OutOfFuel => final = [] /\ List.length misses = fuel
  end.

(** C10 as it is worded, first part: with a timeout below the poll interval
    no check would be made and the result would be [false]. *)
Definition short_timeout_never_checks : Prop :=
  forall remote fuel filePath timeout w,
    timeout < 500 ->
    waitForFile remote (S fuel) filePath timeout w = (Returned false, w).

(** A file system on which the file is there, or not. *)
Definition file_system (present : bool) : Remote :=
  {| sqs_receive := fun _ _ _ _ => {| latency := 1000; settled := inr None |};
     sqs_delete := fun _ _ _ _ => {| latency := 20; settled := inr tt |};
     sqs_send := fun _ _ _ _ => {| latency := 20; settled := inr (Some "id") |};
     logs_filter := fun _ _ _ => {| latency := 200; settled := inr (Some []) |};
     fs_exists := fun _ _ _ => (2%N, present) |}.

(** A file system on which the file appears at time [created]. *)
Definition file_created_at (created : Z) : Remote :=
  {| sqs_receive := fun _ _ _ _ => {| latency := 1000; settled := inr None |};
     sqs_delete := fun _ _ _ _ => {| latency := 20; settled := inr tt |};
     sqs_send := fun _ _ _ _ => {| latency := 20; settled := inr (Some "id") |};
     logs_filter := fun _ _ _ => {| latency := 200; settled := inr (Some []) |};
     fs_exists := fun _ t _ => (2%N, created <=? t) |}.

(** *** The partition of testLoadPerformance *)

(** What [sendMessages] did for a group: the messages it sent, each with
    the settlement of its [SendMessageCommand]. *)
Definition send_event (queueUrl : string)
           (p : SQSMessage * (string + option string)) : Event :=
  EvSend queueUrl (fst p) (snd p).

Definition id_of_reply (r : string + option string) : string :=
  match r with
  | inr (Some id) => id
  | _ => EmptyString
  end.

Definition resolved {A} (r : string + A) : Prop :=
  match r with
  | inr _ => True
  | inl _ => False
  end.

(** How the sends of a group relate to the way [sendMessages] ended:
    [sent] are the sends that were made, [rest] the messages left unsent. *)
Definition send_outcome (r : Completion (list string))
           (sent : list (SQSMessage * (string + option string)))
           (rest : list SQSMessage) : Prop :=
  match r with
  | Returned ids =>
      rest = [] /\ ids = map (fun p => id_of_reply (snd p)) sent /\
      Forall (fun p => resolved (snd p)) sent
  | Thrown e =>
      exists before m reason,
        e = SdkRejection reason /\ sent = before ++ [(m, inl reason)] /\
        Forall (fun p => resolved (snd p)) before
  | OutOfFuel => False
  end.










(** A queue that is empty and whose sends take 10, 17 or 24 ms, by the
    rank of the call. *)
Definition prompt_queue : Remote :=
  {| sqs_receive := fun _ _ _ _ => {| latency := 1000; settled := inr None |};
     sqs_delete := fun _ _ _ _ => {| latency := 20; settled := inr tt |};
     sqs_send := fun k _ _ _ =>
       {| latency := 10 + 7 * N.of_nat (k mod 3);
          settled := inr (Some ("id-" ++ toString (Z.of_nat k))%string) |};
     logs_filter := fun _ _ _ => {| latency := 200; settled := inr (Some []) |};
     fs_exists := fun _ _ _ => (1%N, false) |}.

Definition load_config : SuiteConfig :=
  {| config_queueUrl := "q"; config_timeout := Some 30000 |}.

Definition iso_1970 (_ : Z) : string := "1970-01-01T00:00:00.000Z".

(** *** The attribute encoding *)

Definition is_primitive (v : JsValue) : bool :=
  match v with
  | JString _ | JNumber _ | JBoolean _ | JNull => true
  | _ => false
  end.

(** A primitive, a list of primitives, or a record of primitives. *)
Definition one_level (v : JsValue) : Prop :=
  match v with
  | JArray elements => forallb is_primitive elements = true
  | JObject fs =>
      forallb (fun kv => is_primitive (snd kv)) fs = true /\ NoDup (map fst fs)
  | _ => is_primitive v = true
  end.

(** The attribute value of a field, [{ NULL: true }] standing in where the
    code sets nothing. *)
Definition encoded (v : JsValue) : AttributeValue :=
  match encode_field v with
  | Some a => a
  | None => AV_NULL true
  end.

(** A record with a list of lists among its fields. *)
Definition matrix_record : list (string * JsValue) :=
  [("id", JString "m1");
   ("rows", JArray [JArray [JNumber 1; JNumber 2]; JArray [JNumber 3]])].
(* ===================================================================== *)
(** ** Reasoning about loops *)
(* ===================================================================== *)

Section WhileRules.

Context {S A : Type}.
Variable cond : S -> M bool.
Variable body : S -> M (Step S A).

Lemma while_unfold (fuel : nat) (s : S) (w : World) :
  while (Datatypes.S fuel) cond body s w =
  match cond s w with
  | (Returned true, w1) =>
      match body s w1 with
      | (Returned (Continue s'), w2) => while fuel cond body s' w2
      | (Returned (Return a), w2) => (Returned (Return a), w2)
      | (Thrown e, w2) => (Thrown e, w2)
      | (OutOfFuel, w2) => (OutOfFuel, w2)
      end
  | (Returned false, w1) => (Returned (Continue s), w1)
  | (Thrown e, w1) => (Thrown e, w1)
  | (OutOfFuel, w1) => (OutOfFuel, w1)
  end.
Proof.
  cbn [while]. unfold bind, ret.
  destruct (cond s w) as [[[|]| |] w1]; try reflexivity.
  destruct (body s w1) as [[[|]| |] w2]; reflexivity.
Qed.

(** The invariant rule: it covers the runs that stop for lack of fuel
    too, through [Q OutOfFuel]. *)
Lemma while_rule (I : S -> World -> Prop)
      (Q : Completion (Step S A) -> World -> Prop) :
  (forall s w, I s w -> round_ok cond body I Q s w) ->
  (forall s w, I s w -> Q OutOfFuel w) ->
  forall fuel s w, I s w ->
    Q (fst (while fuel cond body s w)) (snd (while fuel cond body s w)).
Proof.
  intros Hround Hfuel fuel.
  induction fuel as [|fuel IH]; intros s w HI.
  - cbn. now apply (Hfuel s).
  - rewrite while_unfold. specialize (Hround s w HI). unfold round_ok in Hround.
    destruct (cond s w) as [[[|]| |] w1]; cbn; auto.
    destruct (body s w1) as [[[s'|a]| |] w2]; cbn; auto.
Qed.

(** A run that did not stop for lack of fuel is the same with more fuel. *)
Lemma while_more_fuel (fuel extra : nat) (s : S) (w : World) :
  fst (while fuel cond body s w) <> OutOfFuel ->
  while (fuel + extra) cond body s w = while fuel cond body s w.
Proof.
  revert s w. induction fuel as [|fuel IH]; intros s w H.
  - cbn in H. congruence.
  - change (Datatypes.S fuel + extra)%nat with (Datatypes.S (fuel + extra)).
    rewrite !while_unfold in *.
    destruct (cond s w) as [[[|]| |] w1]; try reflexivity.
    destruct (body s w1) as [[[s'|a]| |] w2]; try reflexivity.
    now apply IH.
Qed.

(** The variant rule: when every round that goes on decreases a measure,
    and neither the condition nor the body stops for lack of fuel, fuel
    above the measure is enough. *)
Lemma while_total (I : S -> World -> Prop) (measure : S -> World -> nat) :
  (forall s w, I s w ->
     match cond s w with
     | (Returned true, w1) =>
         match body s w1 with
         | (Returned (Continue s'), w2) =>
             I s' w2 /\ (measure s' w2 < measure s w)%nat
         | (OutOfFuel, _) => False
         | _ => True
         end
     | (OutOfFuel, _) => False
     | _ => True
     end) ->
  forall fuel s w, I s w -> (measure s w < fuel)%nat ->
    fst (while fuel cond body s w) <> OutOfFuel.
Proof.
  intros Hround fuel.
  induction fuel as [|fuel IH]; intros s w HI Hm; [lia|].
  rewrite while_unfold. specialize (Hround s w HI).
  destruct (cond s w) as [[[|]| |] w1]; cbn; try congruence; try contradiction.
  destruct (body s w1) as [[[s'|a]| |] w2]; cbn; try congruence;
    try contradiction.
  destruct Hround as [HI' Hdec]. apply IH; [assumption | lia].
Qed.

End WhileRules.

(* ===================================================================== *)
(** ** The queue-drain poller *)
(* ===================================================================== *)

Lemma Forall_snoc {A} (P : A -> Prop) (l : list A) (x : A) :
  Forall P l -> P x -> Forall P (l ++ [x]).
Proof. intros Hl Hx. apply Forall_app. split; [assumption | now constructor]. Qed.

Section QueuePoller.

Variable remote : Remote.
Variables (queueUrl : string) (expected timeoutMs : Z).

(** The loop alone, started in [w0] with the deadline counted from [start]:
    only reads are appended, each issued before the deadline; the last one
    decides the way the loop ends. *)
Lemma wait_loop_spec (start : Z) (w0 : World) (fuel : nat) :
  let run := while fuel (wait_cond start timeoutMs)
                   (wait_body remote queueUrl expected) tt w0 in
  exists reads,
    appended w0 (snd run) reads /\
    Forall (issued_within (clock w0) start timeoutMs) reads /\
    clock w0 <= clock (snd run) /\
    match fst run with
    | Returned (Return _) =>
        exists pre last,
          reads = pre ++ [last] /\ satisfied_read queueUrl expected last /\
          Forall (unsatisfied_read queueUrl expected) pre
    | Returned (Continue _) =>
        Forall (unsatisfied_read queueUrl expected) reads /\
        timeoutMs <= clock (snd run) - start
    | Thrown e =>
        exists pre last reason,
          e = SdkRejection reason /\ reads = pre ++ [last] /\
          rejected_read queueUrl reason last /\
          Forall (unsatisfied_read queueUrl expected) pre
    | OutOfFuel => Forall (unsatisfied_read queueUrl expected) reads
    end.
Proof.
  intros run. subst run.
  set (I := fun (_ : unit) (w : World) =>
              exists reads,
                appended w0 w reads /\
                Forall (issued_within (clock w0) start timeoutMs) reads /\
                clock w0 <= clock w /\
                Forall (unsatisfied_read queueUrl expected) reads).
  apply (while_rule (wait_cond start timeoutMs)
           (wait_body remote queueUrl expected) I
           (fun r w' =>
              exists reads,
                appended w0 w' reads /\
                Forall (issued_within (clock w0) start timeoutMs) reads /\
                clock w0 <= clock w' /\
                match r with
                | Returned (Return _) =>
                    exists pre last,
                      reads = pre ++ [last] /\
                      satisfied_read queueUrl expected last /\
                      Forall (unsatisfied_read queueUrl expected) pre
                | Returned (Continue _) =>
                    Forall (unsatisfied_read queueUrl expected) reads /\
                    timeoutMs <= clock w' - start
                | Thrown e =>
                    exists pre last reason,
                      e = SdkRejection reason /\ reads = pre ++ [last] /\
                      rejected_read queueUrl reason last /\
                      Forall (unsatisfied_read queueUrl expected) pre
                | OutOfFuel =>
                    Forall (unsatisfied_read queueUrl expected) reads
                end)).
  - (* one round *)
    intros [] w (reads & Htr & Hwin & Hclk & Hun).
    unfold round_ok, wait_cond, wait_body, receiveMessages, await, bind,
      ret, Date_now. cbn.
    destruct (Z.ltb_spec (clock w - start) timeoutMs) as [Hlt | Hge].
    + pose proof (N2Z.is_nonneg
                    (latency (sqs_receive remote (calls w) (clock w)
                                          queueUrl 10))) as Hlat.
      destruct (settled (sqs_receive remote (calls w) (clock w) queueUrl 10))
        as [reason | response] eqn:Hs; cbn.
      * exists (reads ++ [(clock w, EvReceive queueUrl 10 (inl reason))]).
        repeat split.
        -- unfold appended in *. cbn. rewrite Htr, app_assoc. reflexivity.
        -- apply Forall_snoc; [assumption | split; cbn; lia].
        -- cbn. lia.
        -- exists reads, (clock w, EvReceive queueUrl 10 (inl reason)), reason.
           repeat split; auto.
      * destruct (Z.eqb_spec (Z.of_nat (List.length (or_empty response)))
                    expected) as [Heq | Hne]; cbn.
        -- exists (reads ++ [(clock w, EvReceive queueUrl 10 (inr response))]).
           repeat split.
           ++ unfold appended in *. cbn. rewrite Htr, app_assoc. reflexivity.
           ++ apply Forall_snoc; [assumption | split; cbn; lia].
           ++ cbn. lia.
           ++ exists reads, (clock w, EvReceive queueUrl 10 (inr response)).
              repeat split; auto. exists response. auto.
        -- exists (reads ++ [(clock w, EvReceive queueUrl 10 (inr response))]).
           repeat split.
           ++ unfold appended in *. cbn. rewrite Htr, app_assoc. reflexivity.
           ++ apply Forall_snoc; [assumption | split; cbn; lia].
           ++ cbn. lia.
           ++ apply Forall_snoc; [assumption |]. exists response. auto.
    + exists reads. repeat split; auto.
  - intros [] w (reads & Htr & Hwin & Hclk & Hun). exists reads. auto.
  - exists []. repeat split; auto.
    + unfold appended. now rewrite app_nil_r.
    + lia.
Qed.

(** The loop makes one read per unit of fuel: it stops for lack of fuel
    only after [fuel] reads. *)
Lemma wait_loop_fuel (start : Z) (fuel : nat) (w0 : World) :
  let run := while fuel (wait_cond start timeoutMs)
                   (wait_body remote queueUrl expected) tt w0 in
  fst run = OutOfFuel ->
  List.length (trace (snd run)) = (List.length (trace w0) + fuel)%nat.
Proof.
  revert w0. induction fuel as [|fuel IH]; intros w0; cbn zeta.
  - cbn. lia.
  - rewrite while_unfold.
    unfold wait_cond, wait_body, receiveMessages, await, bind, ret, Date_now.
    cbn.
    destruct (clock w0 - start <? timeoutMs); [|cbn; congruence].
    destruct (settled (sqs_receive remote (calls w0) (clock w0) queueUrl 10))
      as [reason | response]; cbn; [congruence|].
    destruct (Z.of_nat (List.length (or_empty response)) =? expected); cbn;
      [congruence|].
    intros H. apply IH in H. etransitivity; [exact H|].
    cbn. rewrite length_app. cbn. lia.
Qed.

(** The function is the initial delay followed by the loop; falling out of
    the loop is the timeout error. *)
Lemma waitForLambdaProcessing_unfold (w : World) (fuel : nat) :
  waitForLambdaProcessing remote fuel queueUrl expected timeoutMs w =
  match while fuel (wait_cond (clock w) timeoutMs)
              (wait_body remote queueUrl expected) tt (after_delay w) with
  | (Returned (Return _), w2) => (Returned tt, w2)
  | (Returned (Continue _), w2) =>
      (Thrown (Error (timeout_message expected)), w2)
  | (Thrown e, w2) => (Thrown e, w2)
  | (OutOfFuel, w2) => (OutOfFuel, w2)
  end.
Proof.
  unfold waitForLambdaProcessing, bind, Date_now, sleep, after_delay, ret,
    throw.
  destruct (while fuel _ _ tt _) as [[[[]|[]]|e|] w2]; reflexivity.
Qed.

Lemma waitForLambdaProcessing_spec (w : World) (fuel : nat) :
  let run := waitForLambdaProcessing remote fuel queueUrl expected timeoutMs w in
  exists reads,
    appended w (snd run) ((clock w, EvSleep 10000) :: reads) /\
    Forall (issued_within (clock w + 10000) (clock w) timeoutMs) reads /\
    clock w + 10000 <= clock (snd run) /\
    drain_outcome queueUrl expected (fst run) reads /\
    (fst run = Thrown (Error (timeout_message expected)) ->
     timeoutMs <= clock (snd run) - clock w) /\
    (fst run = OutOfFuel -> List.length reads = fuel).
Proof.
  cbn zeta. rewrite waitForLambdaProcessing_unfold.
  pose proof (wait_loop_spec (clock w) (after_delay w) fuel) as Hloop.
  pose proof (wait_loop_fuel (clock w) fuel (after_delay w)) as Hfuel.
  cbn zeta in Hloop, Hfuel.
  destruct (while fuel (wait_cond (clock w) timeoutMs)
                  (wait_body remote queueUrl expected) tt (after_delay w))
    as [[[[]|[]]|e|] w2]; cbn [fst snd] in *;
    destruct Hloop as (reads & Htr & Hwin & Hclk & Hout);
    exists reads; unfold appended in *; cbn [after_delay trace clock] in *;
    (split; [rewrite Htr, <- app_assoc; reflexivity|]);
    (split; [exact Hwin|]); (split; [exact Hclk|]).
  - destruct Hout as [Hun Hdead]. cbn. repeat split; auto. congruence.
  - cbn. repeat split; auto; congruence.
  - destruct Hout as (pre & last & reason & -> & Hr & Hrej & Hun).
    cbn. split; [exists pre, last; auto|]. split; congruence.
  - cbn. split; [assumption|]. split; [congruence|]. intros _.
    specialize (Hfuel eq_refl). rewrite Htr, !length_app in Hfuel.
    cbn in Hfuel. lia.
Qed.

(** Enough fuel: when every read takes at least a millisecond, the clock
    passes the deadline after at most [timeoutMs - 10000] reads. *)
Lemma waitForLambdaProcessing_total (w : World) (fuel : nat) :
  (forall k t, (0 < latency (sqs_receive remote k t queueUrl 10))%N) ->
  (Z.to_nat (timeoutMs - 10000) < fuel)%nat ->
  fst (waitForLambdaProcessing remote fuel queueUrl expected timeoutMs w)
  <> OutOfFuel.
Proof.
  intros Hlat Hfuel. rewrite waitForLambdaProcessing_unfold.
  assert (Hloop : fst (while fuel (wait_cond (clock w) timeoutMs)
                         (wait_body remote queueUrl expected) tt
                         (after_delay w))
                  <> OutOfFuel).
  { apply (while_total _ _ (fun _ _ => True)
             (fun _ w' => Z.to_nat (timeoutMs - (clock w' - clock w)))).
    - intros [] w' _.
      unfold wait_cond, wait_body, receiveMessages, await, bind, ret,
        Date_now. cbn.
      destruct (Z.ltb_spec (clock w' - clock w) timeoutMs) as [Hlt|Hge];
        [|exact I].
      specialize (Hlat (calls w') (clock w')).
      destruct (settled (sqs_receive remote (calls w') (clock w') queueUrl 10))
        as [reason | response]; cbn; [exact I|].
      destruct (Z.of_nat (List.length (or_empty response)) =? expected); cbn;
        [exact I|].
      split; [exact I | lia].
    - exact I.
    - cbn. replace (clock w + 10000 - clock w) with 10000 by lia.
      exact Hfuel. }
  destruct (while fuel (wait_cond (clock w) timeoutMs)
                  (wait_body remote queueUrl expected) tt (after_delay w))
    as [[[[]|[]]|e|] w2]; cbn in *; congruence.
Qed.

End QueuePoller.

Lemma unsatisfied_not_satisfied queueUrl expected e :
  unsatisfied_read queueUrl expected e ->
  satisfied_read queueUrl expected e -> False.
Proof.
  intros (r1 & H1 & Hne) (r2 & H2 & Heq).
  rewrite H1 in H2. injection H2 as ->. contradiction.
Qed.

Lemma unsatisfied_not_rejected queueUrl expected reason e :
  unsatisfied_read queueUrl expected e ->
  rejected_read queueUrl reason e -> False.
Proof. intros (r1 & H1 & _) H2. unfold rejected_read in H2. congruence. Qed.

Lemma satisfied_not_rejected queueUrl expected reason e :
  satisfied_read queueUrl expected e ->
  rejected_read queueUrl reason e -> False.
Proof. intros (r1 & H1 & _) H2. unfold rejected_read in H2. congruence. Qed.

Lemma Forall_last {A} (P : A -> Prop) (pre : list A) (x : A) :
  Forall P (pre ++ [x]) -> P x.
Proof.
  intros H. apply Forall_app in H. destruct H as [_ H]. now inversion H.
Qed.

(** The reads of a run are determined by its trace. *)
Lemma appended_inj (w w' : World) (l1 l2 : list (Z * Event)) :
  appended w w' l1 -> appended w w' l2 -> l1 = l2.
Proof.
  unfold appended. intros H1 H2. rewrite H1 in H2.
  now apply app_inv_head in H2.
Qed.

(** When no read shows the expected count, the poll ends with the timeout
    error, after the deadline (or the fuel is used up). *)
Lemma drain_never_matched (remote : Remote) (queueUrl : string)
      (n timeoutMs : Z) (w : World) (fuel : nat) (reads : list (Z * Event)) :
  let run := waitForLambdaProcessing remote fuel queueUrl n timeoutMs w in
  appended w (snd run) ((clock w, EvSleep 10000) :: reads) ->
  Forall (unsatisfied_read queueUrl n) reads ->
  (fst run = Thrown (Error (timeout_message n)) /\
   timeoutMs <= clock (snd run) - clock w) \/
  (fst run = OutOfFuel /\ List.length reads = fuel).
Proof.
  cbn zeta. intros Htr Hall.
  destruct (waitForLambdaProcessing_spec remote queueUrl n timeoutMs w fuel)
    as (reads' & Htr' & _ & _ & Hout & Hdead & Hfuel).
  cbn zeta in *.
  pose proof (appended_inj _ _ _ _ Htr Htr') as Heq.
  injection Heq as <-.
  destruct (fst (waitForLambdaProcessing remote fuel queueUrl n timeoutMs w))
    as [[]|[reason|m]|] eqn:Hrun; cbn in Hout.
  - destruct Hout as (pre & last & -> & Hsat & _).
    apply Forall_last in Hall.
    destruct (unsatisfied_not_satisfied _ _ _ Hall Hsat).
  - destruct Hout as (pre & last & -> & Hrej & _).
    apply Forall_last in Hall.
    destruct (unsatisfied_not_rejected _ _ _ _ Hall Hrej).
  - destruct Hout as [-> _]. left. split; [reflexivity|]. now apply Hdead.
  - right. split; [reflexivity|]. now apply Hfuel.
Qed.

(** Three runs against a queue that holds five messages until it is
    drained, 12.5 s after the call: the poll for 0 returns on its fourth
    read; the poll for 5 returns on its first read; with a deadline of 12 s
    the poll for 0 times out after two reads. *)
Example drain_run_satisfied :
  waitForLambdaProcessing (draining_queue five_messages (epoch + 12500)) 30
                          "q" 0 30000 at_epoch
  = (Returned tt,
     {| clock := epoch + 14000; calls := 4;
        trace := [(epoch, EvSleep 10000);
                  (epoch + 10000, EvReceive "q" 10 (inr (Some five_messages)));
                  (epoch + 11000, EvReceive "q" 10 (inr (Some five_messages)));
                  (epoch + 12000, EvReceive "q" 10 (inr (Some five_messages)));
                  (epoch + 13000, EvReceive "q" 10 (inr None))] |}).
Proof. vm_compute. reflexivity. Qed.

Example drain_run_expecting_five :
  waitForLambdaProcessing (draining_queue five_messages (epoch + 12500)) 30
                          "q" 5 30000 at_epoch
  = (Returned tt,
     {| clock := epoch + 11000; calls := 1;
        trace := [(epoch, EvSleep 10000);
                  (epoch + 10000, EvReceive "q" 10 (inr (Some five_messages)))] |}).
Proof. vm_compute. reflexivity. Qed.

Example drain_run_timeout :
  waitForLambdaProcessing (draining_queue five_messages (epoch + 12500)) 30
                          "q" 0 12000 at_epoch
  = (Thrown (Error "Timeout waiting for Lambda processing. Expected 0 messages"),
     {| clock := epoch + 12000; calls := 2;
        trace := [(epoch, EvSleep 10000);
                  (epoch + 10000, EvReceive "q" 10 (inr (Some five_messages)));
                  (epoch + 11000, EvReceive "q" 10 (inr (Some five_messages)))] |}).
Proof. vm_compute. reflexivity. Qed.

(** C4. For every call of waitForLambdaProcessing with expected count [n]:
    the first thing done is the fixed delay of 10000 ms, and only batch reads
    of the queue follow it; the call returns normally exactly when its last
    read is the first one whose message count equals [n]; a read with another
    count is no error: when no read shows [n] the only way out is the timeout
    error, thrown once the deadline has passed (or the model's fuel is
    exhausted, after one read per unit of fuel).  When every read takes at
    least a millisecond, fuel above [timeoutMs - 10000] is enough for the
    call to end. *)
Theorem waitForLambdaProcessing_polls_until_count_matches
        (remote : Remote) (queueUrl : string) (n timeoutMs : Z)
        (w : World) (fuel : nat) :
  let run := waitForLambdaProcessing remote fuel queueUrl n timeoutMs w in
  exists reads,
    appended w (snd run) ((clock w, EvSleep 10000) :: reads) /\
    Forall (fun e => clock w + 10000 <= fst e /\
                     exists r, snd e = EvReceive queueUrl 10 r) reads /\
    (fst run = Returned tt <->
     exists pre last,
       reads = pre ++ [last] /\ satisfied_read queueUrl n last /\
       Forall (unsatisfied_read queueUrl n) pre) /\
    (Forall (unsatisfied_read queueUrl n) reads ->
     (fst run = Thrown (Error (timeout_message n)) /\
      timeoutMs <= clock (snd run) - clock w) \/
     (fst run = OutOfFuel /\ List.length reads = fuel)) /\
    ((forall k t, (0 < latency (sqs_receive remote k t queueUrl 10))%N) ->
     (Z.to_nat (timeoutMs - 10000) < fuel)%nat ->
     fst run <> OutOfFuel).
Proof.
  cbn zeta.
  destruct (waitForLambdaProcessing_spec remote queueUrl n timeoutMs w fuel)
    as (reads & Htr & Hwin & Hclk & Hout & Hdead & Hfuel).
  cbn zeta in *. exists reads. split; [exact Htr|].
  split; [|split; [|split;
    [|intros Hlat Henough;
      now apply waitForLambdaProcessing_total]]].
  - (* only reads *)
    assert (Hshape : forall e, In e reads ->
                               exists r, snd e = EvReceive queueUrl 10 r).
    { intros e Hin.
      destruct (fst (waitForLambdaProcessing remote fuel queueUrl n timeoutMs w))
        as [[]|[reason|m]|]; cbn in Hout.
      - destruct Hout as (pre & last & -> & (r & Hr & _) & Hun).
        apply in_app_or in Hin. destruct Hin as [Hin|[<-|[]]]; [|eauto].
        rewrite Forall_forall in Hun. destruct (Hun e Hin) as (r' & Hr' & _).
        eauto.
      - destruct Hout as (pre & last & -> & Hr & Hun).
        apply in_app_or in Hin. destruct Hin as [Hin|[<-|[]]]; [|eauto].
        rewrite Forall_forall in Hun. destruct (Hun e Hin) as (r' & Hr' & _).
        eauto.
      - destruct Hout as [_ Hun]. rewrite Forall_forall in Hun.
        destruct (Hun e Hin) as (r' & Hr' & _). eauto.
      - rewrite Forall_forall in Hout.
        destruct (Hout e Hin) as (r' & Hr' & _). eauto. }
    rewrite Forall_forall in *. intros e Hin. split.
    + apply (Hwin e Hin).
    + now apply Hshape.
  - (* returns exactly on the first matching read *)
    split.
    + intros Hret. rewrite Hret in Hout. exact Hout.
    + intros (pre & last & -> & Hsat & Hun).
      destruct (fst (waitForLambdaProcessing remote fuel queueUrl n timeoutMs w))
        as [[]|[reason|m]|]; cbn in Hout; [reflexivity| | |].
      * destruct Hout as (pre' & last' & Heq & Hrej & _).
        apply app_inj_tail in Heq. destruct Heq as [_ ->].
        destruct (satisfied_not_rejected _ _ _ _ Hsat Hrej).
      * destruct Hout as [_ Hall]. apply Forall_last in Hall.
        destruct (unsatisfied_not_satisfied _ _ _ Hall Hsat).
      * apply Forall_last in Hout.
        destruct (unsatisfied_not_satisfied _ _ _ Hout Hsat).
  - (* no read shows n: timeout at the deadline *)
    intros Hall.
    destruct (fst (waitForLambdaProcessing remote fuel queueUrl n timeoutMs w))
      as [[]|[reason|m]|] eqn:Hrun; cbn in Hout.
    + destruct Hout as (pre & last & -> & Hsat & _).
      apply Forall_last in Hall.
      destruct (unsatisfied_not_satisfied _ _ _ Hall Hsat).
    + destruct Hout as (pre & last & -> & Hrej & _).
      apply Forall_last in Hall.
      destruct (unsatisfied_not_rejected _ _ _ _ Hall Hrej).
    + destruct Hout as [-> _]. left. split; [reflexivity|]. now apply Hdead.
    + right. split; [reflexivity|]. now apply Hfuel.
Qed.

(* ===================================================================== *)
(** ** The timeout error *)
(* ===================================================================== *)

Lemma string_length_append (s t : string) :
  String.length (s ++ t) = (String.length s + String.length t)%nat.
Proof. induction s as [|c s IH]; cbn; [reflexivity | now rewrite IH]. Qed.

Lemma string_append_inv_tail (t s1 s2 : string) :
  (s1 ++ t)%string = (s2 ++ t)%string -> s1 = s2.
Proof.
  revert s2. induction s1 as [|c s1 IH]; intros [|c2 s2] H; cbn in H.
  - reflexivity.
  - apply (f_equal String.length) in H. cbn in H.
    rewrite string_length_append in H. lia.
  - apply (f_equal String.length) in H. cbn in H.
    rewrite string_length_append in H. lia.
  - injection H as -> H. f_equal. now apply IH.
Qed.

Lemma toString_inj (n m : Z) : toString n = toString m -> n = m.
Proof.
  unfold toString. intros H. apply DecimalZ.to_int_inj.
  apply (f_equal NilEmpty.int_of_string) in H.
  rewrite !NilEmpty.isi in H. congruence.
Qed.

Lemma parseNumber_toString (n : Z) : parseNumber (toString n) = Some n.
Proof.
  unfold parseNumber, toString. rewrite NilEmpty.isi. cbn.
  now rewrite DecimalZ.of_to.
Qed.

(** The expected count can be read off the message. *)
Lemma timeout_message_inj (n m : Z) :
  timeout_message n = timeout_message m -> n = m.
Proof.
  unfold timeout_message. intros H. cbn in H.
  repeat (injection H as H).
  apply string_append_inv_tail in H. now apply toString_inj.
Qed.

(** The scenario of the spec: a queue that always holds five messages is
    polled for zero with a deadline of 2000 ms.  The initial delay alone
    exceeds the deadline: the queue is never read, and the error names the
    expected count. *)
Example timeout_scenario_2000 :
  waitForLambdaProcessing (stuck_queue five_messages) 30 "q" 0 2000 at_epoch
  = (Thrown (Error "Timeout waiting for Lambda processing. Expected 0 messages"),
     {| clock := epoch + 10000; calls := 0;
        trace := [(epoch, EvSleep 10000)] |}).
Proof. vm_compute. reflexivity. Qed.

(** C3, counterexample.  The claim does not hold as worded: polls for zero
    against a queue stuck at five messages and against one stuck at three
    time out with one and the same error, so no observed count can be read
    off it. *)
Lemma timeout_error_ignores_observed_count : ~ timeout_reports_last_observed.
Proof.
  intros [observed_of H].
  pose proof (H (stuck_queue five_messages) "q" 0 12000 30%nat at_epoch
                "Timeout waiting for Lambda processing. Expected 0 messages"
                [(epoch + 10000, EvReceive "q" 10 (inr (Some five_messages)))]
                (epoch + 11000) (Some five_messages)) as H5.
  pose proof (H (stuck_queue three_messages) "q" 0 12000 30%nat at_epoch
                "Timeout waiting for Lambda processing. Expected 0 messages"
                [(epoch + 10000, EvReceive "q" 10 (inr (Some three_messages)))]
                (epoch + 11000) (Some three_messages)) as H3.
  cbn zeta in H5, H3.
  assert (E5 : observed_of
                 (Error "Timeout waiting for Lambda processing. Expected 0 messages")
               = 5).
  { apply H5; vm_compute; reflexivity. }
  assert (E3 : observed_of
                 (Error "Timeout waiting for Lambda processing. Expected 0 messages")
               = 3).
  { apply H3; vm_compute; reflexivity. }
  rewrite E5 in E3. discriminate E3.
Qed.

(** C3, amended.  A queue-drain poll none of whose reads shows the expected
    count [n] fails, when it ends, with the error
    [Error (timeout_message n)], thrown once the deadline has passed; and it
    does end, with fuel above [timeoutMs - 10000], when every read takes at
    least a millisecond.  The message is "Timeout waiting for Lambda
    processing. Expected n messages": it is a function of the expected count
    alone, and the expected count can be read off it. *)
Theorem timeout_error_carries_expected_count
        (remote : Remote) (queueUrl : string) (n timeoutMs : Z)
        (w : World) (fuel : nat) (reads : list (Z * Event)) :
  let run := waitForLambdaProcessing remote fuel queueUrl n timeoutMs w in
  appended w (snd run) ((clock w, EvSleep 10000) :: reads) ->
  Forall (unsatisfied_read queueUrl n) reads ->
  (fst run <> OutOfFuel ->
   fst run = Thrown (Error (timeout_message n)) /\
   timeoutMs <= clock (snd run) - clock w) /\
  ((forall k t, (0 < latency (sqs_receive remote k t queueUrl 10))%N) ->
   (Z.to_nat (timeoutMs - 10000) < fuel)%nat ->
   fst run <> OutOfFuel) /\
  (forall n', timeout_message n' = timeout_message n -> n' = n).
Proof.
  cbn zeta. intros Htr Hall. split; [|split].
  - intros Hfuel.
    destruct (drain_never_matched remote queueUrl n timeoutMs w fuel reads
                                  Htr Hall)
      as [Hdone | [Hout _]]; [exact Hdone | contradiction].
  - intros Hlat Henough. now apply waitForLambdaProcessing_total.
  - intros n'. apply timeout_message_inj.
Qed.

(* ===================================================================== *)
(** ** The log-appearance poller *)
(* ===================================================================== *)

Section LogPoller.

Variable remote : Remote.
Variable lambdaFunction : string.
Variable filter : CloudWatchLogFilter.

Lemma getLogEvents_unfold (w : World) (fuel : nat) :
  getLogEvents remote fuel lambdaFunction filter w =
  match while fuel (logs_cond (filter_startTime filter))
              (logs_body remote lambdaFunction filter) tt w with
  | (Returned (Return events), w2) => (Returned events, w2)
  | (Returned (Continue _), w2) => (Returned [], w2)
  | (Thrown e, w2) => (Thrown e, w2)
  | (OutOfFuel, w2) => (OutOfFuel, w2)
  end.
Proof.
  unfold getLogEvents, bind, ret.
  destruct (while fuel _ _ tt w) as [[[[]|events]|e|] w2]; reflexivity.
Qed.

(** The trace of a poll: attempts without a match, each a query followed by
    the sleep of 1000 ms, then at most one last query, which is the one
    that matched or was rejected. *)
Lemma getLogEvents_spec (w : World) (fuel : nat) :
  let run := getLogEvents remote fuel lambdaFunction filter w in
  exists attempts final,
    appended w (snd run)
             (flat_map (idle_attempt lambdaFunction filter) attempts ++ final) /\
    Forall (idle_ok (clock w) (filter_startTime filter)) attempts /\
    clock w <= clock (snd run) /\
    logs_outcome lambdaFunction filter (clock w) (fst run) final (snd run).
Proof.
  cbn zeta. rewrite getLogEvents_unfold.
  set (start := filter_startTime filter).
  set (I := fun (_ : unit) (w' : World) =>
              exists attempts,
                appended w w'
                  (flat_map (idle_attempt lambdaFunction filter) attempts) /\
                Forall (idle_ok (clock w) start) attempts /\
                clock w <= clock w').
  set (Q := fun (r : Completion (Step unit (list FilteredLogEvent)))
                (w' : World) =>
              exists attempts final,
                appended w w'
                  (flat_map (idle_attempt lambdaFunction filter) attempts
                     ++ final) /\
                Forall (idle_ok (clock w) start) attempts /\
                clock w <= clock w' /\
                match r with
                | Returned (Return events) =>
                    events <> [] /\
                    exists t response,
                      final = [query_at lambdaFunction filter t (inr response)] /\
                      or_empty response = events /\
                      clock w <= t /\ t - start < timeoutMs
                | Returned (Continue _) =>
                    final = [] /\ timeoutMs <= clock w' - start
                | Thrown e =>
                    exists t reason,
                      e = SdkRejection reason /\
                      final = [query_at lambdaFunction filter t (inl reason)] /\
                      clock w <= t /\ t - start < timeoutMs
                | OutOfFuel => final = []
                end).
  assert (Hloop : Q (fst (while fuel (logs_cond start)
                            (logs_body remote lambdaFunction filter) tt w))
                    (snd (while fuel (logs_cond start)
                            (logs_body remote lambdaFunction filter) tt w))).
  { apply (while_rule _ _ I Q); unfold I, Q.
    - intros [] w' (attempts & Htr & Hok & Hclk).
      unfold round_ok, logs_cond, logs_body, await, bind, ret, Date_now, sleep.
      cbn.
      destruct (Z.ltb_spec (clock w' - start) timeoutMs) as [Hlt | Hge].
      + pose proof (N2Z.is_nonneg
                      (latency (logs_filter remote (calls w') (clock w')
                                  (logs_command lambdaFunction filter (clock w')))))
          as Hlat.
        destruct (settled (logs_filter remote (calls w') (clock w')
                             (logs_command lambdaFunction filter (clock w'))))
          as [reason | response] eqn:Hs; cbn.
        * exists attempts,
            [query_at lambdaFunction filter (clock w') (inl reason)].
          unfold appended in *. cbn. rewrite Htr, app_assoc.
          repeat split; auto; try lia.
          exists (clock w'), reason. repeat split; auto.
        * destruct (or_empty response) as [|ev events] eqn:Hev; cbn.
          -- exists (attempts ++
                       [(clock w', response,
                         clock w' + Z.of_N
                           (latency (logs_filter remote (calls w') (clock w')
                              (logs_command lambdaFunction filter (clock w')))))]).
             unfold appended in *. cbn.
             rewrite flat_map_app. cbn. rewrite Htr, <- !app_assoc.
             cbn. repeat split; auto; try lia.
             apply Forall_snoc; [assumption|]. cbn. repeat split; auto; lia.
          -- exists attempts,
               [query_at lambdaFunction filter (clock w') (inr response)].
             unfold appended in *. cbn. rewrite Htr, app_assoc.
             repeat split; auto; try lia; try discriminate.
             exists (clock w'), response. repeat split; auto.
      + exists attempts, []. unfold appended in *. rewrite app_nil_r.
        repeat split; auto.
    - intros [] w' (attempts & Htr & Hok & Hclk).
      exists attempts, []. unfold appended in *. rewrite app_nil_r.
      repeat split; auto.
    - exists []. unfold appended. cbn. rewrite app_nil_r.
      repeat split; auto. lia. }
  unfold Q in Hloop.
  destruct (while fuel (logs_cond start)
                  (logs_body remote lambdaFunction filter) tt w)
    as [[[[]|events]|e|] w2]; cbn [fst snd] in *;
    destruct Hloop as (attempts & final & Htr & Hok & Hclk & Hout);
    exists attempts, final;
    (split; [exact Htr|]); (split; [exact Hok|]); (split; [exact Hclk|]);
    cbn; auto.
  destruct Hout as [Hne Hout]. destruct events; [congruence | exact Hout].
Qed.

(** Enough fuel: every attempt without a match takes the clock at least
    1000 ms closer to the deadline. *)
Lemma getLogEvents_total (w : World) (fuel : nat) :
  (Z.to_nat ((timeoutMs - (clock w - filter_startTime filter) + 999) / 1000)
   < fuel)%nat ->
  fst (getLogEvents remote fuel lambdaFunction filter w) <> OutOfFuel.
Proof.
  intros Hfuel. rewrite getLogEvents_unfold.
  set (start := filter_startTime filter) in *.
  assert (Hloop : fst (while fuel (logs_cond start)
                         (logs_body remote lambdaFunction filter) tt w)
                  <> OutOfFuel).
  { apply (while_total _ _ (fun _ _ => True)
             (fun _ w' =>
                Z.to_nat ((timeoutMs - (clock w' - start) + 999) / 1000)));
      [| exact I | exact Hfuel].
    intros [] w' _.
    unfold logs_cond, logs_body, await, bind, ret, Date_now, sleep. cbn.
    destruct (Z.ltb_spec (clock w' - start) timeoutMs) as [Hlt|Hge];
      [|exact I].
    pose proof (N2Z.is_nonneg
                  (latency (logs_filter remote (calls w') (clock w')
                              (logs_command lambdaFunction filter (clock w')))))
      as Hlat.
    destruct (settled (logs_filter remote (calls w') (clock w')
                         (logs_command lambdaFunction filter (clock w'))))
      as [reason | response]; cbn; [exact I|].
    destruct (or_empty response) as [|ev events]; cbn; [|exact I].
    split; [exact I|].
    unfold timeoutMs in *. Z.div_mod_to_equations. lia. }
  destruct (while fuel (logs_cond start)
                  (logs_body remote lambdaFunction filter) tt w)
    as [[[[]|events]|e|] w2]; cbn in *; congruence.
Qed.

End LogPoller.

Section LogPollerQuiet.

Variable remote : Remote.
Variable lambdaFunction : string.
Variable filter : CloudWatchLogFilter.

(** Against a quiet log group the poll can only fall out of its loop. *)
Lemma getLogEvents_quiet (w : World) (fuel : nat) :
  quiet_logs remote ->
  let run := getLogEvents remote fuel lambdaFunction filter w in
  fst run = Returned [] \/ fst run = OutOfFuel.
Proof.
  intros Hquiet. cbn zeta. rewrite getLogEvents_unfold.
  pose proof (while_rule (logs_cond (filter_startTime filter))
                (logs_body remote lambdaFunction filter)
                (fun _ _ => True)
                (fun r _ => match r with
                            | Returned (Continue _) | OutOfFuel => True
                            | _ => False
                            end)) as Hrule.
  cbn beta in Hrule.
  assert (Hloop := fun H1 H2 => Hrule H1 H2 fuel tt w I).
  clear Hrule.
  destruct (while fuel (logs_cond (filter_startTime filter))
                  (logs_body remote lambdaFunction filter) tt w)
    as [[[[]|events]|e|] w2]; cbn [fst snd] in *; auto;
    exfalso; apply Hloop; auto; clear Hloop;
    intros [] w' _;
    unfold round_ok, logs_cond, logs_body, await, bind, ret, Date_now, sleep;
    cbn;
    (destruct (clock w' - filter_startTime filter <? timeoutMs); [|exact I]);
    destruct (Hquiet (calls w') (clock w')
                (logs_command lambdaFunction filter (clock w')))
      as (response & -> & ->); cbn; exact I.
Qed.

(** Every event of a poll is a query whose window ends at its issue time,
    or a sleep of 1000 ms. *)
Lemma getLogEvents_events (w : World) (fuel : nat)
      (events : list (Z * Event)) :
  appended w (snd (getLogEvents remote fuel lambdaFunction filter w)) events ->
  Forall (well_formed_query lambdaFunction filter) events.
Proof.
  intros Htr.
  destruct (getLogEvents_spec remote lambdaFunction filter w fuel)
    as (attempts & final & Htr' & _ & _ & Hout).
  cbn zeta in *.
  rewrite (appended_inj _ _ _ _ Htr Htr'). clear Htr Htr'.
  apply Forall_app. split.
  - induction attempts as [|[[t response] t'] attempts IH]; cbn;
      [constructor|].
    constructor; [cbn; auto|]. constructor; [reflexivity | exact IH].
  - destruct (fst (getLogEvents remote fuel lambdaFunction filter w))
      as [[|ev events']|e|]; cbn in Hout.
    + destruct Hout as [-> _]. constructor.
    + destruct Hout as (t & response & -> & _).
      constructor; [cbn; auto | constructor].
    + destruct Hout as (t & reason & _ & -> & _).
      constructor; [cbn; auto | constructor].
    + subst final. constructor.
Qed.

End LogPollerQuiet.

(** Two polls with a window that starts a second before the epoch.  The
    first is for a line logged 2.5 s after the epoch and is called at the
    epoch: it matches on its fourth query, the first one whose window reaches
    the line, and returns at once.  The second is called 27.5 s after the
    epoch against a log group that never matches: it gives up with the
    empty list after two queries, 2.4 s after the call, when 30 s have
    passed since the window start. *)
Example logs_run_found :
  getLogEvents (logs_with hello) 40 "fn" hello_filter at_epoch
  = (Returned [hello],
     {| clock := epoch + 3800; calls := 4;
        trace :=
          [query_at "fn" hello_filter epoch (inr (Some []));
           (epoch + 200, EvSleep 1000);
           query_at "fn" hello_filter (epoch + 1200) (inr (Some []));
           (epoch + 1400, EvSleep 1000);
           query_at "fn" hello_filter (epoch + 2400) (inr (Some []));
           (epoch + 2600, EvSleep 1000);
           query_at "fn" hello_filter (epoch + 3600) (inr (Some [hello]))] |}).
Proof. vm_compute. reflexivity. Qed.

Example logs_run_empty :
  getLogEvents (stuck_queue []) 40 "fn" hello_filter
               {| clock := epoch + 27500; calls := 7; trace := [] |}
  = (Returned [],
     {| clock := epoch + 29900; calls := 9;
        trace :=
          [query_at "fn" hello_filter (epoch + 27500) (inr (Some []));
           (epoch + 27700, EvSleep 1000);
           query_at "fn" hello_filter (epoch + 28700) (inr (Some []));
           (epoch + 28900, EvSleep 1000)] |}).
Proof. vm_compute. reflexivity. Qed.

Lemma stuck_queue_quiet (held : list Message) : quiet_logs (stuck_queue held).
Proof. intros k t c. exists (Some []). split; reflexivity. Qed.

(** C5. A log-appearance poll appends to the trace a series of attempts
    without a match, each a query whose window ends at the time it is issued
    at, followed by a sleep of 1000 ms, and then at most one more query.
    When a query returns one or more entries, it is the last event and the
    poll returns these entries.  When no query ever matches and none is
    rejected, the poll returns the empty list, with enough fuel for the
    attempts that fit before the deadline: it does not throw, and it returns
    when the deadline test of its loop fails, which is when 30000 ms have
    passed since the start time the loop counts from. *)
Theorem getLogEvents_returns_matches_or_empty
        (remote : Remote) (lambdaFunction : string)
        (filter : CloudWatchLogFilter) (w : World) (fuel : nat) :
  let run := getLogEvents remote fuel lambdaFunction filter w in
  (exists attempts final,
     appended w (snd run)
              (flat_map (idle_attempt lambdaFunction filter) attempts ++ final) /\
     Forall (idle_ok (clock w) (filter_startTime filter)) attempts /\
     Forall (well_formed_query lambdaFunction filter)
            (flat_map (idle_attempt lambdaFunction filter) attempts ++ final) /\
     logs_outcome lambdaFunction filter (clock w) (fst run) final (snd run)) /\
  (quiet_logs remote ->
   (Z.to_nat ((timeoutMs - (clock w - filter_startTime filter) + 999) / 1000)
    < fuel)%nat ->
   fst run = Returned [] /\
   timeoutMs <= clock (snd run) - filter_startTime filter).
Proof.
  cbn zeta.
  destruct (getLogEvents_spec remote lambdaFunction filter w fuel)
    as (attempts & final & Htr & Hok & Hclk & Hout).
  cbn zeta in *. split.
  - exists attempts, final. repeat split; auto.
    now apply (getLogEvents_events remote lambdaFunction filter w fuel).
  - intros Hquiet Hfuel.
    pose proof (getLogEvents_total remote lambdaFunction filter w fuel Hfuel)
      as Htotal.
    destruct (getLogEvents_quiet remote lambdaFunction filter w fuel Hquiet)
      as [Hrun | Hrun]; [|contradiction].
    split; [exact Hrun|]. rewrite Hrun in Hout. cbn in Hout. tauto.
Qed.

(* ===================================================================== *)
(** ** Rejected reads *)
(* ===================================================================== *)

(** An element of a list that ends with [last] is [last] itself, at the
    end, or lies before it. *)
Lemma split_before_last {A} (pre post p : list A) (e last : A) :
  pre ++ e :: post = p ++ [last] ->
  (post = [] /\ e = last /\ pre = p) \/ In e p.
Proof.
  intros H. destruct (exists_last (l := e :: post)) as (l' & x & Hl);
    [discriminate|].
  destruct post as [|y post].
  - left. apply app_inj_tail in H. tauto.
  - right. rewrite Hl, app_assoc in H. apply app_inj_tail in H.
    destruct H as [<- _].
    destruct l' as [|e' l']; cbn in Hl.
    + discriminate.
    + injection Hl as <- _. apply in_or_app. right. now left.
Qed.

(** A rejected read among the reads of a queue-drain poll is the last one,
    and its reason is what the poll throws. *)
Lemma drain_rejection_is_final (queueUrl : string) (n : Z)
      (r : Completion unit) (reads pre post : list (Z * Event))
      (e : Z * Event) (reason : string) :
  drain_outcome queueUrl n r reads ->
  reads = pre ++ e :: post ->
  rejected_read queueUrl reason e ->
  post = [] /\ r = Thrown (SdkRejection reason).
Proof.
  intros Hout Heq Hrej.
  assert (Hin : In e reads) by (rewrite Heq; apply in_elt).
  destruct r as [[]|[reason'|m]|]; cbn in Hout.
  - destruct Hout as (p & last & -> & Hsat & Hun). exfalso.
    symmetry in Heq. apply split_before_last in Heq.
    destruct Heq as [(_ & -> & _) | Hp].
    + exact (satisfied_not_rejected _ _ _ _ Hsat Hrej).
    + rewrite Forall_forall in Hun.
      exact (unsatisfied_not_rejected _ _ _ _ (Hun e Hp) Hrej).
  - destruct Hout as (p & last & -> & Hrej' & Hun).
    symmetry in Heq. apply split_before_last in Heq.
    destruct Heq as [(-> & -> & _) | Hp].
    + split; [reflexivity|]. unfold rejected_read in *. congruence.
    + exfalso. rewrite Forall_forall in Hun.
      exact (unsatisfied_not_rejected _ _ _ _ (Hun e Hp) Hrej).
  - destruct Hout as [_ Hun]. exfalso. rewrite Forall_forall in Hun.
    exact (unsatisfied_not_rejected _ _ _ _ (Hun e Hin) Hrej).
  - exfalso. rewrite Forall_forall in Hout.
    exact (unsatisfied_not_rejected _ _ _ _ (Hout e Hin) Hrej).
Qed.

Lemma idle_attempts_not_rejected (lambdaFunction : string)
      (filter : CloudWatchLogFilter)
      (attempts : list (Z * option (list FilteredLogEvent) * Z))
      (e : Z * Event) (reason : string) :
  In e (flat_map (idle_attempt lambdaFunction filter) attempts) ->
  rejected_query reason e -> False.
Proof.
  intros Hin [c Hc]. apply in_flat_map in Hin.
  destruct Hin as ([[t response] t'] & _ & [<- | [<- | []]]); cbn in Hc;
    discriminate.
Qed.

(** The same for the queries of a log-appearance poll. *)
Lemma logs_rejection_is_final (lambdaFunction : string)
      (filter : CloudWatchLogFilter) (from : Z)
      (r : Completion (list FilteredLogEvent)) (w' : World)
      (attempts : list (Z * option (list FilteredLogEvent) * Z))
      (final pre post : list (Z * Event)) (e : Z * Event) (reason : string) :
  logs_outcome lambdaFunction filter from r final w' ->
  flat_map (idle_attempt lambdaFunction filter) attempts ++ final
  = pre ++ e :: post ->
  rejected_query reason e ->
  post = [] /\ r = Thrown (SdkRejection reason).
Proof.
  intros Hout Heq Hrej.
  assert (Hidle := idle_attempts_not_rejected lambdaFunction filter attempts
                     e reason).
  destruct r as [[|ev events]|e'|]; cbn in Hout.
  - destruct Hout as [-> _]. rewrite app_nil_r in Heq. exfalso.
    apply Hidle; [rewrite Heq; apply in_elt | exact Hrej].
  - destruct Hout as (t & response & -> & _). exfalso.
    symmetry in Heq. apply split_before_last in Heq.
    destruct Heq as [(_ & -> & _) | Hp]; [|now apply Hidle].
    destruct Hrej as [c Hc]. cbn in Hc. discriminate.
  - destruct Hout as (t & reason' & -> & -> & _).
    symmetry in Heq. apply split_before_last in Heq.
    destruct Heq as [(-> & -> & _) | Hp]; [|exfalso; now apply Hidle].
    split; [reflexivity|]. destruct Hrej as [c Hc]. cbn in Hc. congruence.
  - subst final. rewrite app_nil_r in Heq. exfalso.
    apply Hidle; [rewrite Heq; apply in_elt | exact Hrej].
Qed.

(** A poll against a queue whose second read is rejected: the rejection is
    what the poll throws, and nothing is read after it. *)
Example drain_run_rejected :
  waitForLambdaProcessing (failing_from 1 five_messages) 30 "q" 0 30000 at_epoch
  = (Thrown (SdkRejection "ExpiredToken"),
     {| clock := epoch + 12000; calls := 2;
        trace := [(epoch, EvSleep 10000);
                  (epoch + 10000, EvReceive "q" 10 (inr (Some five_messages)));
                  (epoch + 11000, EvReceive "q" 10 (inl "ExpiredToken"))] |}).
Proof. vm_compute. reflexivity. Qed.

Example logs_run_rejected :
  getLogEvents (failing_from 1 []) 40 "fn" hello_filter at_epoch
  = (Thrown (SdkRejection "ExpiredToken"),
     {| clock := epoch + 1400; calls := 2;
        trace :=
          [query_at "fn" hello_filter epoch (inr (Some []));
           (epoch + 200, EvSleep 1000);
           query_at "fn" hello_filter (epoch + 1200) (inl "ExpiredToken")] |}).
Proof. vm_compute. reflexivity. Qed.

(** C8. In both pollers a rejection of the remote read is neither retried
    nor swallowed.  Within a round of the loop, a rejected read ends the
    loop with that very rejection, in the world the read left.  For a whole
    run: a rejected read in the trace is the last event of the run, and the
    run throws the rejection with the reason the read gave. *)
Theorem remote_rejections_propagate (remote : Remote) (fuel : nat) (w : World) :
  (forall queueUrl n timeoutMs,
     let run := waitForLambdaProcessing remote fuel queueUrl n timeoutMs w in
     (forall start reason,
        clock w - start < timeoutMs ->
        settled (sqs_receive remote (calls w) (clock w) queueUrl 10)
        = inl reason ->
        while (S fuel) (wait_cond start timeoutMs)
              (wait_body remote queueUrl n) tt w
        = (Thrown (SdkRejection reason),
           elapse (Z.of_N (latency (sqs_receive remote (calls w) (clock w)
                                                queueUrl 10)))
                  (EvReceive queueUrl 10 (inl reason)) w)) /\
     (forall events pre e post reason,
        appended w (snd run) events ->
        events = pre ++ e :: post ->
        rejected_read queueUrl reason e ->
        post = [] /\ fst run = Thrown (SdkRejection reason))) /\
  (forall lambdaFunction filter,
     let run := getLogEvents remote fuel lambdaFunction filter w in
     (forall reason,
        clock w - filter_startTime filter < timeoutMs ->
        settled (logs_filter remote (calls w) (clock w)
                             (logs_command lambdaFunction filter (clock w)))
        = inl reason ->
        getLogEvents remote (S fuel) lambdaFunction filter w
        = (Thrown (SdkRejection reason),
           elapse (Z.of_N (latency
                             (logs_filter remote (calls w) (clock w)
                                (logs_command lambdaFunction filter (clock w)))))
                  (EvFilterLogEvents
                     (logs_command lambdaFunction filter (clock w))
                     (inl reason)) w)) /\
     (forall events pre e post reason,
        appended w (snd run) events ->
        events = pre ++ e :: post ->
        rejected_query reason e ->
        post = [] /\ fst run = Thrown (SdkRejection reason))).
Proof.
  split.
  - intros queueUrl n timeoutMs run. split.
    + intros start reason Hlt Hrej. rewrite while_unfold.
      unfold wait_cond, wait_body, receiveMessages, await, bind, ret, Date_now.
      cbn. apply Z.ltb_lt in Hlt. rewrite Hlt, Hrej. reflexivity.
    + intros events pre e post reason Htr Heq Hrej. subst run.
      destruct (waitForLambdaProcessing_spec remote queueUrl n timeoutMs w fuel)
        as (reads & Htr' & _ & _ & Hout & _).
      cbn zeta in *.
      rewrite (appended_inj _ _ _ _ Htr Htr') in Heq.
      destruct pre as [|s pre]; cbn in Heq.
      * injection Heq as <- _. unfold rejected_read in Hrej. discriminate.
      * injection Heq as _ Heq.
        exact (drain_rejection_is_final _ _ _ _ _ _ _ _ Hout Heq Hrej).
  - intros lambdaFunction filter run. split.
    + intros reason Hlt Hrej. rewrite getLogEvents_unfold, while_unfold.
      unfold logs_cond, logs_body, await, bind, ret, Date_now.
      cbn. apply Z.ltb_lt in Hlt. rewrite Hlt, Hrej. reflexivity.
    + intros events pre e post reason Htr Heq Hrej. subst run.
      destruct (getLogEvents_spec remote lambdaFunction filter w fuel)
        as (attempts & final & Htr' & _ & _ & Hout).
      cbn zeta in *.
      rewrite (appended_inj _ _ _ _ Htr Htr') in Heq.
      exact (logs_rejection_is_final _ _ _ _ _ _ _ _ _ _ _ Hout Heq Hrej).
Qed.

(* ===================================================================== *)
(** ** How long a poll lasts *)
(* ===================================================================== *)

Lemma getLogEvents_issue_times (remote : Remote) (lambdaFunction : string)
      (filter : CloudWatchLogFilter) (w : World) (fuel : nat)
      (events : list (Z * Event)) :
  appended w (snd (getLogEvents remote fuel lambdaFunction filter w)) events ->
  Forall (fun e => forall c r, snd e = EvFilterLogEvents c r ->
                               fst e - filter_startTime filter < timeoutMs)
         events.
Proof.
  intros Htr.
  destruct (getLogEvents_spec remote lambdaFunction filter w fuel)
    as (attempts & final & Htr' & Hok & _ & Hout).
  cbn zeta in *.
  rewrite (appended_inj _ _ _ _ Htr Htr'). clear Htr Htr'.
  apply Forall_app. split.
  - induction Hok as [|[[t response] t'] attempts (_ & _ & Hlt & _) _ IH]; cbn;
      [constructor|].
    constructor; [intros c r _; exact Hlt|].
    constructor; [intros c r Hc; discriminate Hc | exact IH].
  - destruct (fst (getLogEvents remote fuel lambdaFunction filter w))
      as [[|ev events']|e|]; cbn in Hout.
    + destruct Hout as [-> _]. constructor.
    + destruct Hout as (t & response & -> & _ & _ & Hlt).
      constructor; [intros c r _; exact Hlt | constructor].
    + destruct Hout as (t & reason & _ & -> & _ & Hlt).
      constructor; [intros c r _; exact Hlt | constructor].
    + subst final. constructor.
Qed.

Section Durations.

Variable remote : Remote.
Variable L : Z.

(** The queue-drain poller: a read is started before the deadline and
    lasts at most [L]. *)
Lemma waitForLambdaProcessing_duration (queueUrl : string) (n timeout : Z)
      (w : World) (fuel : nat) :
  (forall k t, Z.of_N (latency (sqs_receive remote k t queueUrl 10)) <= L) ->
  let run := waitForLambdaProcessing remote fuel queueUrl n timeout w in
  10000 <= clock (snd run) - clock w <= Z.max 10000 (timeout - 1 + L).
Proof.
  intros Hlat. cbn zeta. split.
  - destruct (waitForLambdaProcessing_spec remote queueUrl n timeout w fuel)
      as (reads & _ & _ & Hclk & _).
    cbn zeta in Hclk. lia.
  - rewrite waitForLambdaProcessing_unfold.
    assert (Hloop :
              clock (snd (while fuel (wait_cond (clock w) timeout)
                            (wait_body remote queueUrl n) tt (after_delay w)))
              <= Z.max (clock w + 10000) (clock w + timeout - 1 + L)).
    { apply (while_rule _ _
               (fun _ w' => clock w' <= Z.max (clock w + 10000)
                                             (clock w + timeout - 1 + L))
               (fun _ w' => clock w' <= Z.max (clock w + 10000)
                                             (clock w + timeout - 1 + L))).
      - intros [] w' Hb.
        unfold round_ok, wait_cond, wait_body, receiveMessages, await, bind,
          ret, Date_now. cbn.
        destruct (Z.ltb_spec (clock w' - clock w) timeout) as [Hlt|Hge];
          [|exact Hb].
        specialize (Hlat (calls w') (clock w')).
        destruct (settled (sqs_receive remote (calls w') (clock w') queueUrl 10))
          as [reason | response]; cbn; [lia|].
        destruct (Z.of_nat (List.length (or_empty response)) =? n); cbn; lia.
      - auto.
      - cbn. lia. }
    destruct (while fuel (wait_cond (clock w) timeout)
                    (wait_body remote queueUrl n) tt (after_delay w))
      as [[[[]|[]]|e|] w2]; cbn [fst snd] in *; lia.
Qed.

(** The log-appearance poller: a call that issued no query ends when it
    began; otherwise it ends at most [L + 1000] after it issued its last
    query, which is followed by nothing or by the sleep of 1000 ms. *)
Lemma getLogEvents_duration (lambdaFunction : string)
      (filter : CloudWatchLogFilter) (w : World) (fuel : nat) :
  (forall k t c, Z.of_N (latency (logs_filter remote k t c)) <= L) ->
  let run := getLogEvents remote fuel lambdaFunction filter w in
  ended_after_last_query L w (snd run).
Proof.
  intros Hlat. cbn zeta. rewrite getLogEvents_unfold.
  assert (Hloop :
            ended_after_last_query L w
              (snd (while fuel (logs_cond (filter_startTime filter))
                      (logs_body remote lambdaFunction filter) tt w))).
  { apply (while_rule _ _ (fun _ w' => ended_after_last_query L w w')
             (fun _ w' => ended_after_last_query L w w')).
    - intros [] w' Hb.
      unfold round_ok, logs_cond, logs_body, await, bind, ret, Date_now,
        sleep. cbn.
      destruct (Z.ltb_spec (clock w' - filter_startTime filter) timeoutMs)
        as [Hlt|Hge]; [|exact Hb].
      specialize (Hlat (calls w') (clock w')
                       (logs_command lambdaFunction filter (clock w'))).
      assert (Hev : exists events, appended w w' events).
      { destruct Hb as [[Hnil _] | (pre & t & c & r & post & Htr & _)];
          eauto. }
      destruct Hev as [events Htr].
      destruct (settled (logs_filter remote (calls w') (clock w')
                           (logs_command lambdaFunction filter (clock w'))))
        as [reason | response]; cbn.
      + right. exists events, (clock w'),
          (logs_command lambdaFunction filter (clock w')), (inl reason), [].
        unfold appended in *. cbn. rewrite Htr, <- app_assoc.
        repeat split; auto. lia.
      + destruct (or_empty response) as [|ev evs]; cbn.
        * right. exists events, (clock w'),
            (logs_command lambdaFunction filter (clock w')), (inr response),
            [(clock w' + Z.of_N
                (latency (logs_filter remote (calls w') (clock w')
                   (logs_command lambdaFunction filter (clock w')))),
              EvSleep 1000)].
          unfold appended in *. cbn. rewrite Htr, <- !app_assoc.
          repeat split; eauto. lia.
        * right. exists events, (clock w'),
            (logs_command lambdaFunction filter (clock w')), (inr response),
            [].
          unfold appended in *. cbn. rewrite Htr, <- app_assoc.
          repeat split; auto. lia.
    - auto.
    - left. unfold appended. rewrite app_nil_r. auto. }
  destruct (while fuel (logs_cond (filter_startTime filter))
                  (logs_body remote lambdaFunction filter) tt w)
    as [[[[]|events]|e|] w2]; cbn [fst snd] in *; exact Hloop.
Qed.

End Durations.

(** C1, counterexample.  The claim does not hold as worded: with a timeout
    of 2000 ms the queue-drain poller ends 10000 ms after its invocation. *)
Lemma poller_blocks_past_timeout : ~ pollers_end_within_timeout.
Proof.
  intros [Hdrain _].
  specialize (Hdrain (stuck_queue five_messages) "q" 0 2000 30%nat at_epoch).
  cbn zeta in Hdrain.
  assert (H : 10000 <= 2000); [|lia].
  etransitivity; [|apply Hdrain].
  - vm_compute. discriminate.
  - vm_compute. discriminate.
Qed.

(** The log-appearance poller overruns as well: called at the start of its
    window against a quiet log group whose queries take 700 ms, its last
    query starts 28900 ms after the call and the poll ends 30600 ms after
    it. *)
Example logs_poll_overruns : ~ logs_end_within_timeout.
Proof.
  intros Hlogs.
  specialize (Hlogs slow_quiet_logs "fn"
                    {| filter_filterPattern := "x"; filter_startTime := epoch |}
                    40%nat at_epoch).
  cbn zeta in Hlogs.
  assert (H : 30600 <= 30000); [|lia].
  etransitivity; [|apply Hlogs].
  - vm_compute. discriminate.
  - vm_compute. discriminate.
Qed.

(** C1, amended.  Neither poller interrupts what it awaits: the deadline is
    looked at between rounds only.  When every remote read lasts at most [L]
    milliseconds, a call of waitForLambdaProcessing with timeout [T] issues
    its reads less than [T] after its invocation, ends no earlier than
    10000 ms after its invocation (the initial delay is served in full
    whatever [T] is) and no later than max(10000, T - 1 + L) ms after it; a
    call of getLogEvents that issues no query ends when it began, and
    otherwise ends at most L + 1000 ms after it issued its last query (the
    query, then possibly the sleep of 1000 ms); when the window of its
    filter starts no later than the call, it ends no later than
    30000 - 1 + L + 1000 ms after its invocation.  Both calls end: the
    queue-drain poller when its reads take time (at least a millisecond
    each), the log poller always; the fuel that suffices is given. *)
Theorem pollers_end_after_last_read
        (remote : Remote) (L : Z) (queueUrl : string) (n timeout : Z)
        (lambdaFunction : string) (filter : CloudWatchLogFilter)
        (w : World) (fuel : nat) :
  (forall k t, Z.of_N (latency (sqs_receive remote k t queueUrl 10)) <= L) ->
  (forall k t c, Z.of_N (latency (logs_filter remote k t c)) <= L) ->
  let drain := waitForLambdaProcessing remote fuel queueUrl n timeout w in
  let logs := getLogEvents remote fuel lambdaFunction filter w in
  (exists reads,
     appended w (snd drain) ((clock w, EvSleep 10000) :: reads) /\
     Forall (issued_within (clock w + 10000) (clock w) timeout) reads) /\
  10000 <= clock (snd drain) - clock w <= Z.max 10000 (timeout - 1 + L) /\
  ended_after_last_query L w (snd logs) /\
  (filter_startTime filter <= clock w ->
   0 <= clock (snd logs) - clock w <= timeoutMs - 1 + L + 1000) /\
  ((forall k t, (0 < latency (sqs_receive remote k t queueUrl 10))%N) ->
   (Z.to_nat (timeout - 10000) < fuel)%nat ->
   fst drain <> OutOfFuel) /\
  ((Z.to_nat ((timeoutMs - (clock w - filter_startTime filter) + 999) / 1000)
    < fuel)%nat ->
   fst logs <> OutOfFuel) /\
  (filter_startTime filter <= clock w -> (30 < fuel)%nat ->
   fst logs <> OutOfFuel).
Proof.
  intros Hq Hl. cbn zeta.
  assert (Hlogs_total :
            (Z.to_nat ((timeoutMs - (clock w - filter_startTime filter) + 999)
                       / 1000) < fuel)%nat ->
            fst (getLogEvents remote fuel lambdaFunction filter w)
            <> OutOfFuel)
    by apply getLogEvents_total.
  split; [|split; [|split; [|split; [|split; [|split]]]]].
  - destruct (waitForLambdaProcessing_spec remote queueUrl n timeout w fuel)
      as (reads & Htr & Hwin & _).
    exists reads. auto.
  - now apply waitForLambdaProcessing_duration.
  - now apply getLogEvents_duration.
  - intros Hstart.
    pose proof (getLogEvents_duration remote L lambdaFunction filter w fuel Hl)
      as Hend.
    cbn zeta in Hend.
    pose proof (N2Z.is_nonneg
                  (latency (logs_filter remote O 0
                              (logs_command lambdaFunction filter 0)))) as H0.
    pose proof (Hl O 0 (logs_command lambdaFunction filter 0)) as HL.
    destruct (getLogEvents_spec remote lambdaFunction filter w fuel)
      as (_ & _ & _ & _ & Hmono & _).
    cbn zeta in Hmono.
    destruct Hend as [[_ Hsame] | (pre & t & c & r & post & Htr & _ & Hlate)].
    + rewrite Hsame. unfold timeoutMs. lia.
    + pose proof (getLogEvents_issue_times remote lambdaFunction filter w fuel
                    _ Htr) as Htimes.
      apply Forall_app in Htimes. destruct Htimes as [_ Htimes].
      inversion Htimes as [|? ? Hissued _]; subst.
      specialize (Hissued c r eq_refl). cbn [fst] in Hissued.
      split; lia.
  - now apply waitForLambdaProcessing_total.
  - exact Hlogs_total.
  - intros Hstart Hfuel. apply Hlogs_total.
    unfold timeoutMs. Z.div_mod_to_equations. lia.
Qed.

(* ===================================================================== *)
(** ** What the deadlines are counted from *)
(* ===================================================================== *)

(** The deadline of getLogEvents is not counted from the start of the
    call: a poll whose window started 28.5 s before the call gives up with
    the empty list 2.4 s after the call began. *)
Lemma logs_deadline_not_from_call_start : ~ logs_deadline_from_call_start.
Proof.
  intros H.
  destruct (H (stuck_queue []) "fn" hello_filter 40%nat
              {| clock := epoch + 27500; calls := 7; trace := [] |})
    as [_ Hgive_up].
  cbn zeta in Hgive_up.
  assert (Hbad : timeoutMs <= 2400).
  { etransitivity; [apply Hgive_up|].
    - vm_compute. reflexivity.
    - vm_compute. discriminate. }
  vm_compute in Hbad. apply Hbad. reflexivity.
Qed.

(** The points the two deadlines are counted from.
    waitForLambdaProcessing counts from its own start: every read is issued
    less than the timeout after the call began, and the timeout error is
    thrown only once the timeout has passed since then.  getLogEvents
    counts from the caller's [filter.startTime]: every query is issued less
    than 30000 ms after [filter.startTime], the poll gives up with the empty
    list only once 30000 ms have passed since [filter.startTime], and a call
    made that late returns the empty list at once, without a query. *)
Lemma deadlines_reference_points (remote : Remote) (fuel : nat) (w : World) :
  (forall queueUrl n timeout reads,
     let run := waitForLambdaProcessing remote fuel queueUrl n timeout w in
     appended w (snd run) ((clock w, EvSleep 10000) :: reads) ->
     Forall (fun e => fst e - clock w < timeout) reads /\
     (fst run = Thrown (Error (timeout_message n)) ->
      timeout <= clock (snd run) - clock w)) /\
  (forall lambdaFunction filter events,
     let run := getLogEvents remote fuel lambdaFunction filter w in
     appended w (snd run) events ->
     Forall (fun e => forall c r, snd e = EvFilterLogEvents c r ->
                                  fst e - filter_startTime filter < timeoutMs)
            events /\
     (fst run = Returned [] ->
      timeoutMs <= clock (snd run) - filter_startTime filter)) /\
  (forall lambdaFunction filter,
     timeoutMs <= clock w - filter_startTime filter ->
     getLogEvents remote (S fuel) lambdaFunction filter w = (Returned [], w)).
Proof.
  split; [|split].
  - intros queueUrl n timeout reads run Htr. subst run.
    destruct (waitForLambdaProcessing_spec remote queueUrl n timeout w fuel)
      as (reads' & Htr' & Hwin & _ & _ & Hdead & _).
    cbn zeta in *.
    pose proof (appended_inj _ _ _ _ Htr Htr') as Heq. injection Heq as <-.
    split; [|exact Hdead].
    eapply Forall_impl; [|exact Hwin]. intros e [_ He]. exact He.
  - intros lambdaFunction filter events run Htr. subst run. split.
    + now apply (getLogEvents_issue_times remote lambdaFunction filter w fuel).
    + intros Hrun.
      destruct (getLogEvents_spec remote lambdaFunction filter w fuel)
        as (attempts & final & _ & _ & _ & Hout).
      cbn zeta in Hout. rewrite Hrun in Hout. cbn in Hout. tauto.
  - intros lambdaFunction filter Hlate.
    rewrite getLogEvents_unfold, while_unfold.
    unfold logs_cond, bind, ret, Date_now. cbn.
    destruct (Z.ltb_spec (clock w - filter_startTime filter) timeoutMs);
      [lia | reflexivity].
Qed.

(** C2, the failing input.  getLogEvents counts its deadline from
    [filter.startTime], not from the start of the call as
    waitForLambdaProcessing does.  Called with a window that starts a
    minute before the call, against a log group that holds a matching line
    in that window, it returns the empty list at once and issues no query,
    although the first query would have returned the line; the poller with
    the deadline counted from the call, as the claim words it, returns the
    line.  In general a call made 30000 ms or more after [filter.startTime]
    returns the empty list without a query. *)
Theorem getLogEvents_deadline_from_filter_start :
  getLogEvents (logs_with earlier_line) 40 "fn" minute_filter at_epoch
  = (Returned [], at_epoch) /\
  settled (logs_filter (logs_with earlier_line) (calls at_epoch)
                       (clock at_epoch)
                       (logs_command "fn" minute_filter (clock at_epoch)))
  = inr (Some [earlier_line]) /\
  fst (spec_getLogEvents (logs_with earlier_line) 40 "fn" minute_filter
                         at_epoch)
  = Returned [earlier_line] /\
  (forall remote fuel lambdaFunction filter w,
     timeoutMs <= clock w - filter_startTime filter ->
     getLogEvents remote (S fuel) lambdaFunction filter w = (Returned [], w)).
Proof.
  split; [vm_compute; reflexivity|].
  split; [vm_compute; reflexivity|].
  split; [vm_compute; reflexivity|].
  intros remote fuel lambdaFunction filter w Hlate.
  rewrite getLogEvents_unfold, while_unfold.
  unfold logs_cond, bind, ret, Date_now. cbn.
  destruct (Z.ltb_spec (clock w - filter_startTime filter) timeoutMs);
    [lia | reflexivity].
Qed.

(* ===================================================================== *)
(** ** Purge *)
(* ===================================================================== *)

Section Purge.

Variable remote : Remote.
Variable queueUrl : string.

Lemma actions_elapse (d : Z) (e : Event) (w : World) :
  actions (elapse d e w) = actions w ++ [e].
Proof. unfold actions, elapse. cbn. now rewrite map_app. Qed.

(** The deletes of a batch: all of them, in order, or a prefix of them
    ended by the one that was rejected. *)
Lemma delete_batch_spec (messages : list Message) :
  forall (w : World) (r : Completion unit) (w' : World),
    for_of messages
           (fun m => deleteMessage remote queueUrl (ReceiptHandle m)) w
    = (r, w') ->
    match r with
    | Returned _ =>
        actions w' = actions w ++ map (delete_of queueUrl) messages
    | Thrown e =>
        exists reason deleted m rest,
          e = SdkRejection reason /\
          messages = deleted ++ m :: rest /\
          actions w'
          = actions w ++ map (delete_of queueUrl) deleted
                      ++ [EvDelete queueUrl (ReceiptHandle m) (inl reason)]
    | OutOfFuel => False
    end.
Proof.
  induction messages as [|m messages IH]; intros w r w' Hrun.
  - cbn in Hrun. injection Hrun as <- <-. cbn. now rewrite app_nil_r.
  - cbn [for_of] in Hrun. unfold bind, deleteMessage, await in Hrun.
    cbn zeta in Hrun.
    destruct (settled (sqs_delete remote (calls w) (clock w) queueUrl
                                  (ReceiptHandle m)))
      as [reason | []] eqn:Hs.
    + injection Hrun as <- <-. exists reason, [], m, messages.
      rewrite actions_elapse. repeat split.
    + apply IH in Hrun. destruct r as [[]|e|].
      * rewrite Hrun, actions_elapse, <- app_assoc. reflexivity.
      * destruct Hrun as (reason & deleted & m' & rest & -> & -> & Hact).
        exists reason, (m :: deleted), m', rest.
        rewrite Hact, actions_elapse, <- app_assoc. repeat split.
      * exact Hrun.
Qed.

Lemma purgeQueue_unfold (fuel : nat) (w : World) :
  purgeQueue remote fuel queueUrl w =
  match receiveMessages remote queueUrl 10 w with
  | (Returned messages, w1) =>
      match while fuel purge_cond (purge_body remote queueUrl) messages w1 with
      | (Returned _, w2) => (Returned tt, w2)
      | (Thrown e, w2) => (Thrown e, w2)
      | (OutOfFuel, w2) => (OutOfFuel, w2)
      end
  | (Thrown e, w1) => (Thrown e, w1)
  | (OutOfFuel, w1) => (OutOfFuel, w1)
  end.
Proof.
  unfold purgeQueue, bind, ret.
  destruct (receiveMessages remote queueUrl 10 w) as [[messages|e|] w1];
    reflexivity.
Qed.

Lemma receiveMessages_unfold (maxMessages : Z) (w : World) :
  receiveMessages remote queueUrl maxMessages w =
  let reply := sqs_receive remote (calls w) (clock w) queueUrl maxMessages in
  let w' := elapse (Z.of_N (latency reply))
                   (EvReceive queueUrl maxMessages (settled reply)) w in
  match settled reply with
  | inl reason => (Thrown (SdkRejection reason), w')
  | inr response => (Returned (or_empty response), w')
  end.
Proof.
  unfold receiveMessages, bind, await, ret. cbn zeta.
  destruct (settled _); reflexivity.
Qed.

(** One round of the loop of purge. *)
Lemma purge_body_unfold (messages : list Message) (w : World) :
  purge_body remote queueUrl messages w =
  match for_of messages
               (fun m => deleteMessage remote queueUrl (ReceiptHandle m)) w with
  | (Returned _, wd) =>
      match receiveMessages remote queueUrl 10 wd with
      | (Returned messages', w2) => (Returned (Continue messages'), w2)
      | (Thrown e, w2) => (Thrown e, w2)
      | (OutOfFuel, w2) => (OutOfFuel, w2)
      end
  | (Thrown e, wd) => (Thrown e, wd)
  | (OutOfFuel, wd) => (OutOfFuel, wd)
  end.
Proof.
  unfold purge_body, bind, ret.
  destruct (for_of messages _ w) as [[[]|e|] wd]; reflexivity.
Qed.

(** The loop of purge, entered with the batch [messages] that the read
    recorded last in the trace returned. *)
Lemma purge_loop_spec (fuel : nat) :
  forall (messages : list Message) (w1 : World) (before : list Event)
         (response : option (list Message))
         (r : Completion (Step (list Message) unit)) (w' : World),
    actions w1 = before ++ [EvReceive queueUrl 10 (inr response)] ->
    or_empty response = messages ->
    while fuel purge_cond (purge_body remote queueUrl) messages w1 = (r, w') ->
    exists batches last,
      actions w'
      = before ++ flat_map (purge_round queueUrl) batches ++ last /\
      Forall (fun b => or_empty b <> []) batches /\
      purge_outcome queueUrl fuel
        (match r with
         | Returned _ => Returned tt
         | Thrown e => Thrown e
         | OutOfFuel => OutOfFuel
         end) (List.length batches) last.
Proof.
  induction fuel as [|fuel IH];
    intros messages w1 before response r w' Hact Hresp Hrun.
  - cbn in Hrun. injection Hrun as <- <-.
    exists [], [EvReceive queueUrl 10 (inr response)].
    cbn. repeat split; eauto.
  - rewrite while_unfold in Hrun. unfold purge_cond, ret in Hrun.
    destruct messages as [|m messages].
    + cbn in Hrun. injection Hrun as <- <-.
      exists [], [EvReceive queueUrl 10 (inr response)].
      cbn. repeat split; eauto.
    + replace (0 <? Z.of_nat (List.length (m :: messages))) with true in Hrun
        by (symmetry; apply Z.ltb_lt; cbn [List.length]; lia).
      rewrite purge_body_unfold in Hrun.
      destruct (for_of (m :: messages) _ w1) as [[[]|e|] wd] eqn:Hfor;
        apply delete_batch_spec in Hfor.
      * (* the batch is deleted; the next read *)
        rewrite receiveMessages_unfold in Hrun. cbn zeta in Hrun.
        destruct (settled (sqs_receive remote (calls wd) (clock wd) queueUrl 10))
          as [reason | response'] eqn:Hs.
        -- injection Hrun as <- <-.
           exists [response], [EvReceive queueUrl 10 (inl reason)].
           rewrite actions_elapse, Hfor, Hact. cbn [flat_map List.length].
           unfold purge_round. rewrite Hresp. split; [|split].
           ++ rewrite app_nil_r, <- !app_assoc. reflexivity.
           ++ constructor; [congruence | constructor].
           ++ exists reason. split; [reflexivity | now left].
        -- apply (IH _ _ (before ++ purge_round queueUrl response) response')
             in Hrun.
           ++ destruct Hrun as (batches & last & Hact' & Hne & Hout).
              exists (response :: batches), last.
              split; [|split].
              ** rewrite Hact'. cbn [flat_map]. rewrite <- !app_assoc.
                 reflexivity.
              ** constructor; [congruence | exact Hne].
              ** destruct r as [r|e|]; cbn in *; auto.
                 destruct Hout as [-> Hlast]. auto.
           ++ rewrite actions_elapse, Hfor, Hact.
              unfold purge_round. rewrite Hresp, <- !app_assoc. reflexivity.
           ++ reflexivity.
      * (* a delete is rejected *)
        injection Hrun as <- <-.
        destruct Hfor as (reason & deleted & m' & rest & -> & Hms & Hact').
        exists [], (EvReceive queueUrl 10 (inr response)
                      :: map (delete_of queueUrl) deleted
                      ++ [EvDelete queueUrl (ReceiptHandle m') (inl reason)]).
        cbn. rewrite Hact', Hact, <- !app_assoc. cbn.
        repeat split; [constructor|].
        exists reason. split; [reflexivity|]. right.
        exists response, deleted, m', rest. rewrite Hresp. auto.
      * contradiction.
Qed.

Lemma delete_batch_calls (messages : list Message) :
  forall (w : World) (r : Completion unit) (w' : World),
    for_of messages
           (fun m => deleteMessage remote queueUrl (ReceiptHandle m)) w
    = (r, w') ->
    (calls w <= calls w')%nat.
Proof.
  induction messages as [|m messages IH]; intros w r w' Hrun.
  - cbn in Hrun. injection Hrun as _ <-. lia.
  - cbn [for_of] in Hrun. unfold bind, deleteMessage, await in Hrun.
    cbn zeta in Hrun.
    destruct (settled (sqs_delete remote (calls w) (clock w) queueUrl
                                  (ReceiptHandle m))) as [reason | []].
    + injection Hrun as _ <-. cbn. lia.
    + apply IH in Hrun. cbn in Hrun. lia.
Qed.

(** Enough fuel: when the reads from the call of rank [K] on come back
    empty, the purge ends within [K - calls w] rounds. *)
Lemma purgeQueue_total (K fuel : nat) (w : World) :
  (forall k t, (K <= k)%nat ->
     exists response,
       settled (sqs_receive remote k t queueUrl 10) = inr response /\
       or_empty response = []) ->
  (K - calls w < fuel)%nat ->
  fst (purgeQueue remote fuel queueUrl w) <> OutOfFuel.
Proof.
  intros Hempty Hfuel.
  rewrite purgeQueue_unfold, receiveMessages_unfold. cbn zeta.
  destruct (settled (sqs_receive remote (calls w) (clock w) queueUrl 10))
    as [reason | response] eqn:Hs; [cbn; discriminate|].
  set (w1 := elapse _ _ w).
  assert (Hloop : fst (while fuel purge_cond (purge_body remote queueUrl)
                         (or_empty response) w1) <> OutOfFuel).
  { apply (while_total _ _
             (fun messages w' => messages <> [] -> (calls w' <= K)%nat)
             (fun _ w' => (S K - calls w')%nat)).
    - intros messages w' Hinv. unfold purge_cond, ret.
      destruct messages as [|m messages]; [exact I|].
      replace (0 <? Z.of_nat (List.length (m :: messages))) with true
        by (symmetry; apply Z.ltb_lt; cbn [List.length]; lia).
      specialize (Hinv ltac:(discriminate)).
      rewrite purge_body_unfold.
      destruct (for_of (m :: messages) _ w') as [[[]|e|] wd] eqn:Hfor.
      + apply delete_batch_calls in Hfor.
        rewrite receiveMessages_unfold. cbn zeta.
        destruct (settled (sqs_receive remote (calls wd) (clock wd)
                                       queueUrl 10))
          as [reason | response'] eqn:Hs'; [exact I|].
        split; [|unfold elapse; cbn [calls]; lia].
        intros Hne. unfold elapse. cbn [calls].
        destruct (Nat.le_gt_cases K (calls wd)) as [Hle | Hlt]; [|lia].
        destruct (Hempty (calls wd) (clock wd) Hle) as (r0 & Hr0 & Hnil).
        rewrite Hs' in Hr0. injection Hr0 as <-. contradiction.
      + exact I.
      + apply delete_batch_spec in Hfor. contradiction.
    - intros Hne. subst w1. unfold elapse. cbn [calls].
      destruct (Nat.le_gt_cases K (calls w)) as [Hle | Hlt]; [|lia].
      destruct (Hempty (calls w) (clock w) Hle) as (r0 & Hr0 & Hnil).
      rewrite Hs in Hr0. injection Hr0 as <-. contradiction.
    - subst w1. unfold elapse. cbn [calls]. lia. }
  destruct (while fuel purge_cond (purge_body remote queueUrl)
                  (or_empty response) w1) as [[r|e|] w2];
    cbn in *; congruence.
Qed.

Lemma purgeQueue_spec (fuel : nat) (w : World) :
  let run := purgeQueue remote fuel queueUrl w in
  exists batches last,
    actions (snd run)
    = actions w ++ flat_map (purge_round queueUrl) batches ++ last /\
    Forall (fun b => or_empty b <> []) batches /\
    purge_outcome queueUrl fuel (fst run) (List.length batches) last.
Proof.
  cbn zeta. rewrite purgeQueue_unfold, receiveMessages_unfold. cbn zeta.
  destruct (settled (sqs_receive remote (calls w) (clock w) queueUrl 10))
    as [reason | response] eqn:Hs.
  - exists [], [EvReceive queueUrl 10 (inl reason)].
    cbn [fst snd]. rewrite actions_elapse. cbn. repeat split; [constructor|].
    exists reason. split; [reflexivity | now left].
  - destruct (while fuel purge_cond (purge_body remote queueUrl)
                    (or_empty response) _) as [r w2] eqn:Hrun.
    apply (purge_loop_spec fuel _ _ (actions w) response) in Hrun.
    + destruct Hrun as (batches & last & Hact & Hne & Hout).
      exists batches, last. destruct r as [r|e|]; cbn [fst snd] in *; auto.
    + now rewrite actions_elapse.
    + reflexivity.
Qed.

End Purge.

(** Purging an empty queue is one read.  Purging a queue that yields two
    messages, then one, then nothing: each batch is deleted entry by entry
    before the next read. *)
Example purge_empty_queue :
  purgeQueue (scripted_queue []) 5 "q" at_epoch
  = (Returned tt,
     {| clock := epoch + 50; calls := 1;
        trace := [(epoch, EvReceive "q" 10 (inr None))] |}).
Proof. vm_compute. reflexivity. Qed.

Example purge_backlog :
  actions (snd (purgeQueue
                  (scripted_queue [Some [ping "1"; ping "2"]; None; None;
                                   Some [ping "3"]; None; Some []])
                  5 "q" at_epoch))
  = [EvReceive "q" 10 (inr (Some [ping "1"; ping "2"]));
     EvDelete "q" "rh-1" (inr tt);
     EvDelete "q" "rh-2" (inr tt);
     EvReceive "q" 10 (inr (Some [ping "3"]));
     EvDelete "q" "rh-3" (inr tt);
     EvReceive "q" 10 (inr (Some []))].
Proof. vm_compute. reflexivity. Qed.

(** C7. When the first batch read of purgeQueue returns no entries, the
    call returns at once: that read is all it did, no delete is issued.
    In general a purge is a series of rounds, each a read of a batch that
    is not empty followed by one delete for each of its entries, in order;
    it returns after the first read that comes back empty.  (It throws when
    a read or a delete is rejected; the model runs out of fuel only after
    as many complete rounds as it has fuel, and not at all when the queue
    is empty from some call on and the fuel covers the calls before it.) *)
Theorem purgeQueue_drains_until_empty
        (remote : Remote) (queueUrl : string) (fuel : nat) (w : World) :
  (forall response,
     settled (sqs_receive remote (calls w) (clock w) queueUrl 10)
     = inr response ->
     or_empty response = [] ->
     purgeQueue remote (S fuel) queueUrl w
     = (Returned tt,
        elapse (Z.of_N (latency (sqs_receive remote (calls w) (clock w)
                                             queueUrl 10)))
               (EvReceive queueUrl 10 (inr response)) w)) /\
  (let run := purgeQueue remote fuel queueUrl w in
   exists batches last,
     actions (snd run)
     = actions w ++ flat_map (purge_round queueUrl) batches ++ last /\
     Forall (fun b => or_empty b <> []) batches /\
     purge_outcome queueUrl fuel (fst run) (List.length batches) last) /\
  (forall K,
     (forall k t, (K <= k)%nat ->
        exists response,
          settled (sqs_receive remote k t queueUrl 10) = inr response /\
          or_empty response = []) ->
     (K - calls w < fuel)%nat ->
     fst (purgeQueue remote fuel queueUrl w) <> OutOfFuel).
Proof.
  split; [|split].
  - intros response Hs Hempty.
    rewrite purgeQueue_unfold, receiveMessages_unfold. cbn zeta.
    rewrite Hs, Hempty, while_unfold. reflexivity.
  - apply purgeQueue_spec.
  - intros K. apply purgeQueue_total.
Qed.

(* ===================================================================== *)
(** ** waitForFile *)
(* ===================================================================== *)

(** The loop test [i < timeoutMs / 500], a comparison of numbers, on the
    integers. *)
Lemma file_cond_unfold (timeout i : Z) (w : World) :
  file_cond timeout i w = (Returned (i * 500 <? timeout), w).
Proof.
  unfold file_cond, ret, maxTries, pollInterval. f_equal. f_equal.
  unfold Qcompare, Qdiv, Qmult, Qinv, inject_Z. cbn.
  rewrite !Z.mul_1_r. unfold Z.ltb.
  destruct (i * 500 ?= timeout); reflexivity.
Qed.

Section WaitForFile.

Variable remote : Remote.
Variable filePath : string.
Variable timeout : Z.

Lemma waitForFile_unfold (fuel : nat) (w : World) :
  waitForFile remote fuel filePath timeout w =
  match while fuel (file_cond timeout) (file_body remote filePath) 0 w with
  | (Returned (Return found), w2) => (Returned found, w2)
  | (Returned (Continue _), w2) => (Returned false, w2)
  | (Thrown e, w2) => (Thrown e, w2)
  | (OutOfFuel, w2) => (OutOfFuel, w2)
  end.
Proof.
  unfold waitForFile, bind, ret.
  destruct (while fuel _ _ 0 w) as [[[i|found]|e|] w2]; reflexivity.
Qed.

Lemma file_body_unfold (i : Z) (w : World) :
  file_body remote filePath i w =
  let (d, found) := fs_exists remote (calls w) (clock w) filePath in
  let w1 := elapse (Z.of_N d) (EvExists filePath found) w in
  if found then (Returned (Return true), w1)
  else (Returned (Continue (i + 1)),
        {| clock := clock w1 + 500; calls := calls w1;
           trace := trace w1 ++ [(clock w1, EvSleep 500)] |}).
Proof.
  unfold file_body, fileExists, bind, ret, sleep, pollInterval.
  destruct (fs_exists remote (calls w) (clock w) filePath) as [d [|]];
    reflexivity.
Qed.

(** The loop, entered with the counter [i] after [i] checks. *)
Lemma file_loop_spec (fuel : nat) :
  forall (i : Z) (w : World) (r : Completion (Step Z bool)) (w' : World),
    0 <= i ->
    while fuel (file_cond timeout) (file_body remote filePath) i w = (r, w') ->
    exists misses final,
      appended w w' (flat_map (missed_check filePath) misses ++ final) /\
      match r with
      | Returned (Return found) =>
          found = true /\ i * 500 < timeout /\
          (i + Z.of_nat (List.length misses)) * 500 < timeout /\
          exists t, final = [(t, EvExists filePath true)]
      | Returned (Continue j) =>
          final = [] /\ j = i + Z.of_nat (List.length misses) /\
          timeout <= j * 500 /\
          (misses = [] \/ (j - 1) * 500 < timeout)
      | Thrown _ => False
      | OutOfFuel =>
          final = [] /\ List.length misses = fuel /\
          (misses = [] \/
           (i + Z.of_nat (List.length misses) - 1) * 500 < timeout)
      end.
Proof.
  induction fuel as [|fuel IH]; intros i w r w' Hi Hrun.
  - cbn in Hrun. injection Hrun as <- <-. exists [], [].
    unfold appended. cbn. rewrite app_nil_r. auto.
  - rewrite while_unfold, file_cond_unfold in Hrun.
    destruct (Z.ltb_spec (i * 500) timeout) as [Hlt | Hge].
    + rewrite file_body_unfold in Hrun.
      destruct (fs_exists remote (calls w) (clock w) filePath) as [d [|]].
      * injection Hrun as <- <-. exists [], [(clock w, EvExists filePath true)].
        unfold appended. cbn. repeat split; auto; try lia. eauto.
      * cbn zeta in Hrun. apply IH in Hrun; [|lia].
        destruct Hrun as (misses & final & Htr & Hout).
        exists ((clock w, clock w + Z.of_N d) :: misses), final. split.
        -- unfold appended in *. rewrite Htr. cbn. rewrite <- !app_assoc.
           reflexivity.
        -- destruct r as [[j|found]|e|]; cbn [List.length] in *.
           ++ destruct Hout as (-> & -> & Hge & Hlast).
              repeat split; auto; try lia.
              right. destruct Hlast as [-> | Hlast]; cbn; lia.
           ++ destruct Hout as (-> & _ & Hlt' & t & ->).
              repeat split; auto; try lia. eauto.
           ++ exact Hout.
           ++ destruct Hout as (-> & <- & Hlast).
              repeat split; auto.
              right. destruct Hlast as [-> | Hlast]; cbn; lia.
    + injection Hrun as <- <-. exists [], [].
      unfold appended. cbn. rewrite app_nil_r. repeat split; auto; lia.
Qed.

Lemma tries_allowed_spec (c : Z) :
  0 <= c -> timeout <= c * 500 -> (c = 0 \/ (c - 1) * 500 < timeout) ->
  c = tries_allowed timeout.
Proof.
  unfold tries_allowed. intros Hc Hge Hlast.
  Z.div_mod_to_equations. lia.
Qed.

Lemma tries_allowed_bound (c : Z) :
  0 <= c -> (c = 0 \/ (c - 1) * 500 < timeout) -> c <= tries_allowed timeout.
Proof.
  unfold tries_allowed. intros Hc Hlast.
  Z.div_mod_to_equations. lia.
Qed.

(** The function: checks that miss, each followed by the sleep of 500 ms,
    then either the check that finds the file or nothing more. *)
Lemma waitForFile_spec (fuel : nat) (w : World) :
  let run := waitForFile remote fuel filePath timeout w in
  exists misses final,
    appended w (snd run) (flat_map (missed_check filePath) misses ++ final) /\
    Z.of_nat (List.length misses + List.length final)
    <= tries_allowed timeout /\
    file_outcome filePath timeout fuel (fst run) misses final.
Proof.
  cbn zeta. rewrite waitForFile_unfold.
  destruct (while fuel (file_cond timeout) (file_body remote filePath) 0 w)
    as [r w2] eqn:Hrun.
  apply file_loop_spec in Hrun; [|lia].
  destruct Hrun as (misses & final & Htr & Hout).
  exists misses, final.
  destruct r as [[j|found]|e|]; cbn [fst snd]; (split; [exact Htr|]).
  - destruct Hout as (-> & -> & Hge & Hlast). cbn [List.length].
    rewrite Nat.add_0_r. cbn [file_outcome].
    assert (Heq : Z.of_nat (List.length misses) = tries_allowed timeout).
    { apply tries_allowed_spec; try lia.
      destruct Hlast as [-> | Hlast]; [left; reflexivity | right; lia]. }
    split; [lia | auto].
  - destruct Hout as (-> & _ & Hlt & t & ->). cbn [List.length file_outcome].
    split; [|eauto].
    apply tries_allowed_bound; lia.
  - contradiction.
  - destruct Hout as (-> & Hlen & Hlast). cbn [List.length file_outcome].
    split; [|auto]. rewrite Nat.add_0_r.
    apply tries_allowed_bound; [lia|].
    destruct Hlast as [-> | Hlast]; [left; reflexivity | right; lia].
Qed.

End WaitForFile.

(** With a timeout of 100 ms: a file that is there is found by the single
    check that is made; a file that is not there is checked for once.  With
    the timeout of 1200 ms, a file created 700 ms after the call is found
    by the third and last check that is allowed. *)
Example waitForFile_short_timeout_present :
  waitForFile (file_system true) 3 "out.txt" 100 at_epoch
  = (Returned true,
     {| clock := epoch + 2; calls := 1;
        trace := [(epoch, EvExists "out.txt" true)] |}).
Proof. vm_compute. reflexivity. Qed.

Example waitForFile_short_timeout_absent :
  waitForFile (file_system false) 3 "out.txt" 100 at_epoch
  = (Returned false,
     {| clock := epoch + 502; calls := 1;
        trace := [(epoch, EvExists "out.txt" false);
                  (epoch + 2, EvSleep 500)] |}).
Proof. vm_compute. reflexivity. Qed.

Example waitForFile_third_check :
  waitForFile (file_created_at (epoch + 700)) 5 "out.txt" 1200 at_epoch
  = (Returned true,
     {| clock := epoch + 1006; calls := 3;
        trace := [(epoch, EvExists "out.txt" false);
                  (epoch + 2, EvSleep 500);
                  (epoch + 502, EvExists "out.txt" false);
                  (epoch + 504, EvSleep 500);
                  (epoch + 1004, EvExists "out.txt" true)] |}).
Proof. vm_compute. reflexivity. Qed.

(** C10, counterexample.  The claim does not hold as worded: with a
    timeout of 100 ms the bound of the loop is 0.2, the test [0 < 0.2]
    succeeds, and a file that is there is found. *)
Lemma short_timeout_checks_once : ~ short_timeout_never_checks.
Proof.
  intros H.
  specialize (H (file_system true) 2%nat "out.txt" 100 at_epoch).
  assert (Hlt : 100 < 500) by lia.
  specialize (H Hlt). vm_compute in H. discriminate H.
Qed.

(** C10, amended.  waitForFile makes its checks while the counter is below
    the number [timeoutMs / 500], not below its integer part.  With a
    timeout that is not positive it makes no check and returns false.  With
    a timeout above 0 and up to 500 ms it makes exactly one check and
    returns what that check found: true when the file is there.  In general
    it makes at most ceil(timeoutMs / 500) checks, each miss followed by a
    sleep of 500 ms; it returns true exactly when its last check finds the
    file, and false after ceil(timeoutMs / 500) misses; fuel above that
    number is enough for a result. *)
Theorem waitForFile_checks_while_below_quotient
        (remote : Remote) (filePath : string) (timeout : Z)
        (fuel : nat) (w : World) :
  let run := waitForFile remote fuel filePath timeout w in
  (timeout <= 0 ->
   waitForFile remote (S fuel) filePath timeout w = (Returned false, w)) /\
  (0 < timeout <= 500 ->
   waitForFile remote (S (S fuel)) filePath timeout w
   = let (d, found) := fs_exists remote (calls w) (clock w) filePath in
     let w1 := elapse (Z.of_N d) (EvExists filePath found) w in
     if found then (Returned true, w1)
     else (Returned false,
           {| clock := clock w1 + 500; calls := calls w1;
              trace := trace w1 ++ [(clock w1, EvSleep 500)] |})) /\
  (exists misses final,
     appended w (snd run) (flat_map (missed_check filePath) misses ++ final) /\
     Z.of_nat (List.length misses + List.length final)
     <= tries_allowed timeout /\
     file_outcome filePath timeout fuel (fst run) misses final) /\
  ((Z.to_nat (tries_allowed timeout) < fuel)%nat -> fst run <> OutOfFuel).
Proof.
  cbn zeta. split; [|split; [|split]].
  - intros Hle. rewrite waitForFile_unfold, while_unfold, file_cond_unfold.
    destruct (Z.ltb_spec (0 * 500) timeout); [lia | reflexivity].
  - intros [Hpos Hle].
    rewrite waitForFile_unfold, while_unfold, file_cond_unfold.
    destruct (Z.ltb_spec (0 * 500) timeout); [|lia].
    rewrite file_body_unfold.
    destruct (fs_exists remote (calls w) (clock w) filePath) as [d [|]];
      [reflexivity|].
    cbv beta iota zeta. rewrite while_unfold, file_cond_unfold.
    destruct (Z.ltb_spec ((0 + 1) * 500) timeout); [lia | reflexivity].
  - apply waitForFile_spec.
  - intros Hfuel Hrun.
    destruct (waitForFile_spec remote filePath timeout fuel w)
      as (misses & final & _ & Hbound & Hout).
    cbn zeta in *. rewrite Hrun in Hout. cbn in Hout.
    destruct Hout as [-> Hlen]. cbn in Hbound.
    unfold tries_allowed in *. lia.
Qed.

(* ===================================================================== *)
(** ** The partition of testLoadPerformance *)
(* ===================================================================== *)

Section SendMessages.

Variable remote : Remote.
Variable queueUrl : string.

Lemma sendMessage_unfold (m : SQSMessage) (w : World) :
  sendMessage remote queueUrl m w =
  let reply := sqs_send remote (calls w) (clock w) queueUrl m in
  let w' := elapse (Z.of_N (latency reply))
                   (EvSend queueUrl m (settled reply)) w in
  match settled reply with
  | inl reason => (Thrown (SdkRejection reason), w')
  | inr response => (Returned (id_of_reply (inr response)), w')
  end.
Proof.
  unfold sendMessage, bind, await, ret. cbn zeta.
  destruct (settled _) as [reason | [id|]]; reflexivity.
Qed.

(** [sendMessages] makes one send per message, in the order of the list,
    and stops at the first one that is rejected. *)
Lemma sendMessages_from_spec (messages : list SQSMessage) :
  forall (ids : list string) (w : World)
         (r : Completion (list string)) (w' : World),
    sendMessages_from remote queueUrl messages ids w = (r, w') ->
    exists sent rest,
      actions w' = actions w ++ map (send_event queueUrl) sent /\
      messages = map fst sent ++ rest /\
      match r with
      | Returned ids' =>
          rest = [] /\
          ids' = ids ++ map (fun p => id_of_reply (snd p)) sent /\
          Forall (fun p => resolved (snd p)) sent
      | Thrown e =>
          exists before m reason,
            e = SdkRejection reason /\ sent = before ++ [(m, inl reason)] /\
            Forall (fun p => resolved (snd p)) before
      | OutOfFuel => False
      end.
Proof.
  induction messages as [|m messages IH]; intros ids w r w' Hrun.
  - cbn in Hrun. injection Hrun as <- <-. exists [], [].
    cbn. rewrite !app_nil_r. auto.
  - cbn [sendMessages_from] in Hrun. unfold bind in Hrun.
    rewrite sendMessage_unfold in Hrun. cbn zeta in Hrun.
    destruct (settled (sqs_send remote (calls w) (clock w) queueUrl m))
      as [reason | response] eqn:Hs.
    + injection Hrun as <- <-.
      exists [(m, inl reason)], messages. rewrite actions_elapse.
      repeat split. exists [], m, reason. auto.
    + apply IH in Hrun.
      destruct Hrun as (sent & rest & Hact & -> & Hout).
      exists ((m, inr response) :: sent), rest.
      rewrite Hact, actions_elapse, <- app_assoc. repeat split.
      destruct r as [ids'|e|].
      * destruct Hout as (-> & -> & Hall). repeat split.
        -- cbn. now rewrite <- app_assoc.
        -- constructor; [exact I | exact Hall].
      * destruct Hout as (before & m' & reason & -> & -> & Hall).
        exists ((m, inr response) :: before), m', reason.
        repeat split. constructor; [exact I | exact Hall].
      * exact Hout.
Qed.

Lemma sendMessages_spec (messages : list SQSMessage) (w : World) :
  let run := sendMessages remote queueUrl messages w in
  exists sent rest,
    actions (snd run) = actions w ++ map (send_event queueUrl) sent /\
    messages = map fst sent ++ rest /\
    send_outcome (fst run) sent rest.
Proof.
  cbn zeta. unfold sendMessages.
  destruct (sendMessages_from remote queueUrl messages [] w) as [r w'] eqn:Hrun.
  apply sendMessages_from_spec in Hrun.
  destruct Hrun as (sent & rest & Hact & Hms & Hout).
  exists sent, rest. cbn [fst snd]. repeat split; auto.
Qed.

End SendMessages.

Section Partition.

Variable toISOString : Z -> string.




End Partition.



(** *** A list updated at an index *)








(** *** Interleavings *)




(** *** Sends made one at a time *)



(** *** The promise that settles first *)



(** *** The calls of sendMessages under Promise.all *)

Section Submission.

Variable remote : Remote.
Variable queueUrl : string.
Variable groups : list (list SQSMessage).




End Submission.

(** *** The loop that makes the calls *)


Section BatchLoop.

Variable remote : Remote.
Variable queueUrl : string.
Variable messages : list SQSMessage.
Variable b : nat.
Hypothesis b_positive : (1 <= b)%nat.

Let k : nat := List.length messages.



End BatchLoop.

(** *** A call of sendMessages on its own *)


(** *** The submission ends *)




Section BatchLoopTotal.

Variable remote : Remote.
Variable queueUrl : string.
Variable messages : list SQSMessage.
Variable b : nat.
Hypothesis b_positive : (1 <= b)%nat.

Let k : nat := List.length messages.


End BatchLoopTotal.



(** *** The run of testLoadPerformance *)




(** Seven messages at concurrency level five against a queue whose sends
    take 10, 17 or 24 ms: groups of two, the last one smaller, four groups;
    the first send of each group is issued at once, the second of a group
    when its first has resolved. *)
Example testLoadPerformance_7_5 :
  let run := testLoadPerformance iso_1970 prompt_queue 40 load_config 7 5
                                 at_epoch in
  let message i :=
    {| body := JSON_stringify_id_timestamp i (iso_1970 0);
       messageAttributes := None |} in
  option_map result_totalTime
             (match fst run with Returned r => Some r | _ => None end)
  = Some 11041 /\
  firstn 7 (skipn 1 (trace (snd run)))
  = [(epoch + 1000, EvSend "q" (message 0) (inr (Some "id-1")));
     (epoch + 1000, EvSend "q" (message 2) (inr (Some "id-2")));
     (epoch + 1000, EvSend "q" (message 4) (inr (Some "id-3")));
     (epoch + 1000, EvSend "q" (message 6) (inr (Some "id-4")));
     (epoch + 1010, EvSend "q" (message 5) (inr (Some "id-5")));
     (epoch + 1017, EvSend "q" (message 1) (inr (Some "id-6")));
     (epoch + 1024, EvSend "q" (message 3) (inr (Some "id-7")))].
Proof. vm_compute. split; reflexivity. Qed.




(* ===================================================================== *)
(** ** The attribute encoding of toDynamoFormat *)
(* ===================================================================== *)

(** The local loops of [encode_field] and [encode_element] are
    [toDynamoFormat] and [map]. *)
Lemma encode_field_array (elements : list JsValue) :
  encode_field (JArray elements) = Some (AV_L (map encode_element elements)).
Proof.
  reflexivity.
Qed.

Lemma encode_field_object (fs : list (string * JsValue)) :
  encode_field (JObject fs) = Some (AV_M (toDynamoFormat fs)).
Proof.
  unfold toDynamoFormat, toDynamoFormat_from. cbn [encode_field]. do 2 f_equal.
  generalize (@nil (string * AttributeValue)) as result.
  induction fs as [|[key v] rest IH]; intros result; cbn; [reflexivity|].
  apply IH.
Qed.

Lemma encode_element_object (fs : list (string * JsValue)) :
  encode_element (JObject fs) = AV_M (toDynamoFormat fs).
Proof.
  unfold toDynamoFormat, toDynamoFormat_from. cbn [encode_element]. f_equal.
  generalize (@nil (string * AttributeValue)) as result.
  induction fs as [|[key v] rest IH]; intros result; cbn; [reflexivity|].
  apply IH.
Qed.

(** An array that is an element of an array goes through
    [toDynamoFormat] like a record, its indices as keys. *)
Lemma encode_element_array (elements : list JsValue) :
  encode_element (JArray elements)
  = AV_M (toDynamoFormat (array_entries elements)).
Proof.
  unfold toDynamoFormat, toDynamoFormat_from, array_entries.
  cbn [encode_element]. f_equal.
  generalize (@nil (string * AttributeValue)) as result.
  generalize O as i.
  induction elements as [|v rest IH]; intros i result; cbn; [reflexivity|].
  apply IH.
Qed.

(** The rows of the tag table for a field of the record: each kind of value
    gets its tag. *)
Lemma encode_field_table :
  (forall s, encode_field (JString s) = Some (AV_S s)) /\
  (forall n, encode_field (JNumber n) = Some (AV_N (toString n))) /\
  (forall b, encode_field (JBoolean b) = Some (AV_BOOL b)) /\
  (forall elements,
     encode_field (JArray elements) = Some (AV_L (map encode_element elements))) /\
  (forall fs, encode_field (JObject fs) = Some (AV_M (toDynamoFormat fs))) /\
  encode_field JNull = Some (AV_NULL true) /\
  encode_field JUndefined = Some (AV_NULL true).
Proof.
  repeat split; auto using encode_field_array, encode_field_object.
Qed.

Lemma assign_fresh {A} (result : list (string * A)) (key : string) (a : A) :
  ~ In key (map fst result) -> assign result key a = result ++ [(key, a)].
Proof.
  induction result as [|[k x] rest IH]; intros Hfresh; cbn; [reflexivity|].
  destruct (String.eqb_spec k key) as [-> | Hne].
  - exfalso. apply Hfresh. now left.
  - f_equal. apply IH. intros Hin. apply Hfresh. now right.
Qed.

(** On a record whose keys are pairwise different and whose values all
    have a branch, the loop of [toDynamoFormat] encodes field by field, in
    order. *)
Lemma toDynamoFormat_from_fresh (data : list (string * JsValue)) :
  forall result,
    NoDup (map fst result ++ map fst data) ->
    Forall (fun kv => encode_field (snd kv) <> None) data ->
    toDynamoFormat_from data result
    = result ++ map (fun kv => (fst kv, encoded (snd kv))) data.
Proof.
  unfold toDynamoFormat_from.
  induction data as [|[key v] rest IH]; intros result Hnd Hall; cbn.
  - now rewrite app_nil_r.
  - inversion Hall as [|? ? Hv Hrest]; subst. cbn in Hv.
    assert (Hfresh : ~ In key (map fst result)).
    { intros Hin. apply NoDup_remove_2 in Hnd. apply Hnd.
      apply in_or_app. now left. }
    cbn [snd fst].
    destruct (encode_field v) as [a|] eqn:Hev; [|congruence].
    cbn [assign_opt]. rewrite (assign_fresh _ _ _ Hfresh).
    rewrite IH; [| | exact Hrest].
    + rewrite <- app_assoc. cbn. unfold encoded. rewrite Hev. reflexivity.
    + rewrite map_app, <- app_assoc. exact Hnd.
Qed.

Lemma toDynamoFormat_fresh (data : list (string * JsValue)) :
  NoDup (map fst data) ->
  Forall (fun kv => encode_field (snd kv) <> None) data ->
  toDynamoFormat data = map (fun kv => (fst kv, encoded (snd kv))) data.
Proof.
  intros Hnd Hall. unfold toDynamoFormat.
  now rewrite toDynamoFormat_from_fresh.
Qed.

Lemma decode_primitive (v : JsValue) :
  is_primitive v = true ->
  encode_field v <> None /\ encode_element v = encoded v /\
  decode (encoded v) = Some v.
Proof.
  destruct v; cbn; try discriminate; intros _; repeat split; try discriminate.
  unfold encoded. cbn. now rewrite parseNumber_toString.
Qed.

Lemma decode_list_of_primitives (elements : list JsValue) :
  forallb is_primitive elements = true ->
  decode (AV_L (map encode_element elements)) = Some (JArray elements).
Proof.
  intros Hall. cbn [decode].
  assert (Heach :
            (fix each (l : list AttributeValue) : option (list JsValue) :=
               match l with
               | [] => Some []
               | x :: rest =>
                   match decode x, each rest with
                   | Some v, Some r => Some (v :: r)
                   | _, _ => None
                   end
               end) (map encode_element elements) = Some elements).
  { induction elements as [|v rest IH]; [reflexivity|].
    cbn in Hall. apply andb_prop in Hall. destruct Hall as [Hv Hrest].
    destruct (decode_primitive v Hv) as (_ & Henc & Hdec).
    cbn [map]. rewrite Henc, Hdec, (IH Hrest). reflexivity. }
  rewrite Heach. reflexivity.
Qed.

Lemma decode_fields (fs : list (string * JsValue)) :
  Forall (fun kv => decode (encoded (snd kv)) = Some (snd kv)) fs ->
  decode (AV_M (map (fun kv => (fst kv, encoded (snd kv))) fs))
  = Some (JObject fs).
Proof.
  intros Hall. cbn [decode].
  assert (Heach :
            (fix each (l : list (string * AttributeValue))
               : option (list (string * JsValue)) :=
               match l with
               | [] => Some []
               | (key, x) :: rest =>
                   match decode x, each rest with
                   | Some v, Some r => Some ((key, v) :: r)
                   | _, _ => None
                   end
               end) (map (fun kv => (fst kv, encoded (snd kv))) fs) = Some fs).
  { induction Hall as [|[key v] rest Hv _ IH]; [reflexivity|].
    cbn [map fst snd] in *. rewrite Hv, IH. reflexivity. }
  rewrite Heach. reflexivity.
Qed.

Lemma primitives_have_branches (fs : list (string * JsValue)) :
  forallb (fun kv => is_primitive (snd kv)) fs = true ->
  Forall (fun kv => encode_field (snd kv) <> None) fs /\
  Forall (fun kv => decode (encoded (snd kv)) = Some (snd kv)) fs.
Proof.
  induction fs as [|[key v] rest IH]; intros Hall; [split; constructor|].
  cbn in Hall. apply andb_prop in Hall. destruct Hall as [Hv Hrest].
  destruct (decode_primitive v Hv) as (Hb & _ & Hdec).
  destruct (IH Hrest) as [H1 H2]. split; constructor; auto.
Qed.

Lemma decode_one_level (v : JsValue) :
  one_level v ->
  encode_field v <> None /\ decode (encoded v) = Some v.
Proof.
  destruct v as [s|n|b| | |elements|fs|]; cbn [one_level];
    try (intros H; destruct (decode_primitive _ H) as (? & _ & ?); now split);
    try (cbn; discriminate).
  - intros Hall. unfold encoded. rewrite encode_field_array.
    split; [discriminate|]. now apply decode_list_of_primitives.
  - intros [Hall Hnd]. unfold encoded. rewrite encode_field_object.
    split; [discriminate|].
    destruct (primitives_have_branches fs Hall) as [Hb Hdec].
    rewrite (toDynamoFormat_fresh fs Hnd Hb). now apply decode_fields.
Qed.

(** The round trip, against the decoder modelled from the spec: a
    record whose keys are pairwise different and whose fields are
    primitives (string, number, boolean, null), lists of primitives or
    records of primitives is decoded back from its encoding. *)
Lemma toDynamoFormat_round_trip_one_level (data : list (string * JsValue)) :
  NoDup (map fst data) ->
  Forall (fun kv => one_level (snd kv)) data ->
  decode_record (toDynamoFormat data) = Some data.
Proof.
  intros Hnd Hall. unfold decode_record.
  assert (Hb : Forall (fun kv => encode_field (snd kv) <> None) data).
  { eapply Forall_impl; [|exact Hall]. intros kv H.
    now destruct (decode_one_level _ H). }
  assert (Hd : Forall (fun kv => decode (encoded (snd kv)) = Some (snd kv)) data).
  { eapply Forall_impl; [|exact Hall]. intros kv H.
    now destruct (decode_one_level _ H). }
  rewrite (toDynamoFormat_fresh data Hnd Hb), (decode_fields data Hd).
  reflexivity.
Qed.

(** C6, the failing input.  A list that is an element of a list is not
    encoded under the list tag: the callback of [value.map] sends arrays,
    with the objects, to [toDynamoFormat], which encodes them as maps keyed
    by the indices.  On a record with a list of lists the code and the tag
    table of the spec differ, and the encoding is not decoded back to the
    record. *)
Theorem toDynamoFormat_list_in_list_is_map :
  toDynamoFormat matrix_record
  = [("id", AV_S "m1");
     ("rows", AV_L [AV_M [("0", AV_N "1"); ("1", AV_N "2")];
                    AV_M [("0", AV_N "3")]])] /\
  spec_encode (JObject matrix_record)
  = Some (AV_M [("id", AV_S "m1");
                ("rows", AV_L [AV_L [AV_N "1"; AV_N "2"]; AV_L [AV_N "3"]])]) /\
  Some (AV_M (toDynamoFormat matrix_record))
  <> spec_encode (JObject matrix_record) /\
  decode_record (toDynamoFormat matrix_record)
  = Some [("id", JString "m1");
          ("rows", JArray [JObject [("0", JNumber 1); ("1", JNumber 2)];
                           JObject [("0", JNumber 3)]])] /\
  decode_record (toDynamoFormat matrix_record) <> Some matrix_record.
Proof.
  repeat split; try (vm_compute; reflexivity); vm_compute; discriminate.
Qed.

(* ===================================================================== *)
(** ** The theorems at concrete inputs *)
(* ===================================================================== *)

(** C1 at a stuck queue and a quiet log group, with reads of at most a
    second: the poll for zero with a timeout of 2000 ms lasts 10000 ms; the
    log poll, called a second after the start of its window, ends within
    31999 ms; both end. *)
Lemma pollers_end_after_last_read_witness :
  10000 <= clock (snd (waitForLambdaProcessing (stuck_queue five_messages) 40
                                               "q" 0 2000 at_epoch))
           - clock at_epoch
  <= Z.max 10000 (2000 - 1 + 1000) /\
  0 <= clock (snd (getLogEvents (stuck_queue five_messages) 40 "fn"
                                hello_filter at_epoch))
       - clock at_epoch
  <= timeoutMs - 1 + 1000 + 1000 /\
  fst (waitForLambdaProcessing (stuck_queue five_messages) 40 "q" 0 2000
                               at_epoch) <> OutOfFuel /\
  fst (getLogEvents (stuck_queue five_messages) 40 "fn" hello_filter at_epoch)
  <> OutOfFuel.
Proof.
  destruct (pollers_end_after_last_read (stuck_queue five_messages) 1000
              "q" 0 2000 "fn" hello_filter at_epoch 40)
    as (_ & Hdrain & _ & Hlogs & Hdrain_ends & _ & Hlogs_end).
  - intros k t. vm_compute. discriminate.
  - intros k t c. vm_compute. discriminate.
  - split; [exact Hdrain|]. split; [|split].
    + apply Hlogs. vm_compute. discriminate.
    + apply Hdrain_ends; [intros k t; reflexivity | vm_compute; lia].
    + apply Hlogs_end; [vm_compute; discriminate | lia].
Defined.

(** C3 at a queue stuck at five messages, polled for zero for 12 s. *)
Lemma timeout_error_carries_expected_count_witness :
  fst (waitForLambdaProcessing (stuck_queue five_messages) 30 "q" 0 12000
                               at_epoch)
  = Thrown (Error (timeout_message 0)).
Proof.
  apply (proj1 (timeout_error_carries_expected_count
                  (stuck_queue five_messages) "q" 0 12000 at_epoch 30
                  [(epoch + 10000, EvReceive "q" 10 (inr (Some five_messages)));
                   (epoch + 11000, EvReceive "q" 10 (inr (Some five_messages)))]
                  ltac:(vm_compute; reflexivity)
                  ltac:(repeat constructor; exists (Some five_messages);
                        (split; [reflexivity | vm_compute; discriminate])))).
  vm_compute. discriminate.
Defined.

(** C4 at a queue drained 12.5 s after the call: the poll returns. *)
Lemma waitForLambdaProcessing_polls_witness :
  fst (waitForLambdaProcessing (draining_queue five_messages (epoch + 12500))
                               30 "q" 0 30000 at_epoch)
  = Returned tt.
Proof.
  destruct (waitForLambdaProcessing_polls_until_count_matches
              (draining_queue five_messages (epoch + 12500)) "q" 0 30000
              at_epoch 30) as (reads & Htr & _ & Hret & _).
  apply Hret.
  exists [(epoch + 10000, EvReceive "q" 10 (inr (Some five_messages)));
          (epoch + 11000, EvReceive "q" 10 (inr (Some five_messages)));
          (epoch + 12000, EvReceive "q" 10 (inr (Some five_messages)))],
         (epoch + 13000, EvReceive "q" 10 (inr None)).
  split; [|split].
  - vm_compute in Htr. injection Htr as <-. reflexivity.
  - exists None. split; reflexivity.
  - repeat constructor; exists (Some five_messages);
      (split; [reflexivity | vm_compute; discriminate]).
Defined.

(** C5 at a quiet log group: the empty list, once the deadline has passed. *)
Lemma getLogEvents_returns_matches_or_empty_witness :
  fst (getLogEvents (stuck_queue []) 40 "fn" hello_filter at_epoch)
  = Returned [] /\
  timeoutMs
  <= clock (snd (getLogEvents (stuck_queue []) 40 "fn" hello_filter at_epoch))
     - filter_startTime hello_filter.
Proof.
  apply (proj2 (getLogEvents_returns_matches_or_empty
                  (stuck_queue []) "fn" hello_filter at_epoch 40)).
  - apply stuck_queue_quiet.
  - vm_compute. lia.
Defined.

(** C7 at an empty queue. *)
Lemma purgeQueue_drains_until_empty_witness :
  purgeQueue (scripted_queue []) 1 "q" at_epoch
  = (Returned tt,
     {| clock := epoch + 50; calls := 1;
        trace := [(epoch, EvReceive "q" 10 (inr None))] |}).
Proof.
  apply (proj1 (purgeQueue_drains_until_empty (scripted_queue []) "q" 0
                                              at_epoch) None);
    reflexivity.
Defined.

(** C8 at a queue whose second read is rejected. *)
Lemma remote_rejections_propagate_witness :
  fst (waitForLambdaProcessing (failing_from 1 five_messages) 30 "q" 0 30000
                               at_epoch)
  = Thrown (SdkRejection "ExpiredToken").
Proof.
  apply (proj2 (proj1 (remote_rejections_propagate
                         (failing_from 1 five_messages) 30 at_epoch)
                      "q" 0 30000)
               [(epoch, EvSleep 10000);
                (epoch + 10000, EvReceive "q" 10 (inr (Some five_messages)));
                (epoch + 11000, EvReceive "q" 10 (inl "ExpiredToken"))]
               [(epoch, EvSleep 10000);
                (epoch + 10000, EvReceive "q" 10 (inr (Some five_messages)))]
               (epoch + 11000, EvReceive "q" 10 (inl "ExpiredToken"))
               [] "ExpiredToken").
  - vm_compute. reflexivity.
  - reflexivity.
  - reflexivity.
Defined.


(** C10 at a timeout of 100 ms and a file that is there. *)
Lemma waitForFile_checks_while_below_quotient_witness :
  waitForFile (file_system true) 2 "out.txt" 100 at_epoch
  = (Returned true,
     {| clock := epoch + 2; calls := 1;
        trace := [(epoch, EvExists "out.txt" true)] |}).
Proof.
  apply (proj1 (proj2 (waitForFile_checks_while_below_quotient
                         (file_system true) "out.txt" 100 0 at_epoch))).
  lia.
Defined.
